(** * Bazaar: the screenshot widget, the SPDX helpers and the transaction view

    A shallow embedding of [src/bz-screenshot.c], [src/bz-spdx.c] and
    [src/bz-transaction-view.c], and what holds of them.

    - C [int] is a [Z] inside [INT_MIN .. INT_MAX].
    - C [double] is IEEE-754 binary64, taken from the Standard Library's
      executable specification [spec_float] ([prec = 53], [emax = 1024]);
      every arithmetic operation is the correctly rounded one of that
      specification, and a double the code receives is a well-formed one
      ([valid_binary]).
    - C [float], of which graphene's rectangles are made, is binary32, the
      same specification at [prec = 24] and [emax = 128]; a [guint64] is a
      [Z] inside [0 .. UINT64_MAX].
    - A nullable pointer is an [option].
    - C strings are [string]s.
    - GObject property notifications, queued redraws and signal connections
      are recorded in the widget state, so that "nothing happened" is a
      statement about that state.
    - Functions of AppStream, libc, libm and glib are parameters or are
      modelled from their documentation, as said where they are declared.

    The file has three parts: the program, the vocabulary the properties are
    stated with (and the sample inputs they are tried on), and the
    properties. *)

From Stdlib Require Import ZArith List Bool String Ascii Lia Floats.
Import ListNotations.
Open Scope Z_scope.

(* ================================================================= *)
(** ** C arithmetic *)

Module C.

Definition INT_MIN : Z := - 2 ^ 31.
Definition INT_MAX : Z := 2 ^ 31 - 1.

Definition is_int (z : Z) : bool := (INT_MIN <=? z) && (z <=? INT_MAX).

Definition double : Type := spec_float.

Definition dadd : double -> double -> double := SF64add.
Definition dsub : double -> double -> double := SF64sub.
Definition dmul : double -> double -> double := SF64mul.
Definition ddiv : double -> double -> double := SF64div.

(** [x < y] and [x > y] on doubles: false as soon as one side is a NaN. *)
Definition dlt (x y : double) : bool :=
  match SFcompare x y with Some Lt => true | _ => false end.
Definition dgt (x y : double) : bool :=
  match SFcompare x y with Some Gt => true | _ => false end.
Definition dle (x y : double) : bool :=
  match SFcompare x y with Some (Lt | Eq) => true | _ => false end.

(** The conversion [(double) i] of an [int]: exact, since [|i| < 2^53]. *)
Definition double_of_int (i : Z) : double := binary_normalize prec emax i 0 false.

(** The literals [0.0] and [2.0]. *)
Definition d0 : double := S754_zero false.
Definition d2 : double := Eval vm_compute in double_of_int 2.

(** The integer part of a double, rounded toward zero; nothing for NaN and
    the infinities. *)
Definition double_truncate (x : double) : option Z :=
  match x with
  | S754_zero _ => Some 0
  | S754_finite s m e => Some (cond_Zopp s (Z.shiftl (Zpos m) e))
  | S754_infinity _ | S754_nan => None
  end.

(** The conversion [(int) x]: defined only when the truncated value is an
    [int] (C11 6.3.1.4); [None] is undefined behaviour. *)
Definition int_of_double (x : double) : option Z :=
  match double_truncate x with
  | Some z => if is_int z then Some z else None
  | None => None
  end.

(** libm's [ceil]: the least integral double not below [x]; zeros,
    infinities and NaN are returned as they are, and a negative [x] above
    [-1] gives [-0.0]. *)
Definition ceil (x : double) : double :=
  match x with
  | S754_finite s m e =>
      if 0 <=? e then x
      else
        let k := Z.opp e in
        let n := if s then Z.opp (Z.shiftr (Zpos m) k)
                 else Z.shiftr (Zpos m + (2 ^ k - 1)) k in
        binary_normalize prec emax n 0 s
  | _ => x
  end.

(** glib's [MIN (a, b)], that is [((a) < (b)) ? (a) : (b)], at type double. *)
Definition MIN (a b : double) : double := if dlt a b then a else b.

(** libc's [strstr]: the first occurrence of [needle] in [haystack], as the
    suffix of [haystack] that starts there; [None] is the null pointer. *)
Fixpoint strstr (haystack needle : string) : option string :=
  if String.prefix needle haystack then Some haystack
  else match haystack with
       | EmptyString => None
       | String _ rest => strstr rest needle
       end.

(** libc's [strchr]: the suffix of [s] that starts at the first [c]. *)
Fixpoint strchr (s : string) (c : ascii) : option string :=
  match s with
  | EmptyString => None
  | String a rest => if Ascii.eqb a c then Some s else strchr rest c
  end.

(** glib's [g_str_has_prefix (str, prefix)]. *)
Definition g_str_has_prefix (str prefix : string) : bool := String.prefix prefix str.

End C.
Import C.

(* ================================================================= *)
(** ** Divisions performed

    Every double division of the modelled code goes through [Trace.div],
    which records its operands, so that what the code divides by can be
    stated. *)

Module Trace.

Record division : Type := { dividend : double; divisor : double }.

Definition M (A : Type) : Type := (A * list division)%type.

Definition ret {A : Type} (a : A) : M A := (a, []).

Definition bind {A B : Type} (c : M A) (k : A -> M B) : M B :=
  let (a, l1) := c in
  let (b, l2) := k a in
  (b, l1 ++ l2).

Definition div (x y : double) : M double :=
  (ddiv x y, [{| dividend := x; divisor := y |}]).

Definition value {A : Type} (c : M A) : A := fst c.
Definition divisions {A : Type} (c : M A) : list division := snd c.

End Trace.

Notation "x <- c ;; k" := (Trace.bind c (fun x => k))
  (at level 61, c at next level, right associativity).
Notation "' pat <- c ;; k" := (Trace.bind c (fun x => match x with pat => k end))
  (at level 61, pat pattern, c at next level, right associativity).

(* ================================================================= *)
(** ** bz-spdx.c *)

Module Spdx.
Section Spdx.

(** AppStream's license database: [as_get_license_url] and
    [as_license_to_spdx_id], each a function of the identifier alone. *)
Variable as_get_license_url : string -> option string.
Variable as_license_to_spdx_id : string -> option string.

Definition bz_spdx_is_valid (license_id : option string) : bool :=
  match license_id with
  | None => false
  | Some id =>
      let url := as_get_license_url id in
      match url with Some _ => true | None => false end
  end.

Definition bz_spdx_get_url (license_id : option string) : option string :=
  match license_id with
  | None => None
  | Some id => as_get_license_url id
  end.

Definition bz_spdx_get_name (license_id : option string) : option string :=
  match license_id with
  | None => None
  | Some id =>
      if g_str_has_prefix id "LicenseRef-proprietary" then Some "Proprietary"%string
      else
        let result := as_license_to_spdx_id id in
        match result with
        | None => Some id
        | Some _ => result
        end
  end.

End Spdx.
End Spdx.

(* ================================================================= *)
(** ** Toolkit objects shared by the two widgets *)

(** What [BZ_IS_ASYNC_TEXTURE] and [GDK_IS_TEXTURE] tell about a paintable. *)
Inductive paintable_type : Type :=
| BZ_ASYNC_TEXTURE
| GDK_TEXTURE
| GDK_OTHER_PAINTABLE.

(** A [GdkPaintable]: its identity and what its intrinsic-size getters
    return. *)
Record GdkPaintable : Type := {
  paintable_id : nat;
  paintable_type_of : paintable_type;
  intrinsic_width : Z;
  intrinsic_height : Z;
  intrinsic_aspect_ratio : double
}.

(* ================================================================= *)
(** ** bz-transaction-view.c *)

Module TransactionView.

Record BzEntryGroup : Type := {
  group_icon_paintable : option GdkPaintable
}.

Record BzEntry : Type := {
  entry_id : option string;
  entry_icon_paintable : option GdkPaintable;
  entry_is_of_kinds : Z -> bool;
  entry_is_flatpak : bool;
  addon_extension_of_ref : option string
}.

Record BzStateInfo : Type := {
  application_factory_convert_one : option string -> option BzEntryGroup
}.

Record BzWindow : Type := {
  window_state_info : option BzStateInfo
}.

(** A [GtkListItem], as far as the callbacks look at it: the [BzWindow]
    ancestor of its child, if any. *)
Record GtkListItem : Type := {
  child_ancestor_window : option BzWindow
}.

Record BzBackendTransactionOpPayload : Type := {
  payload_name : option string
}.

Record BzTransactionTask : Type := {
  task_error : option string;
  task_op : option BzBackendTransactionOpPayload
}.

Record BzTransactionEntryTracker : Type := {
  tracker_entry : option BzEntry;
  tracker_type_enum : Z
}.

Record GListModel : Type := { n_items : N }.

Record BzTransaction : Type := { transaction_id : nat }.

Inductive property : Type := PROP_TRANSACTION.

Record BzTransactionView : Type := {
  transaction : option BzTransaction;
  notified : list property
}.

(** A [GtkCustomFilter]: its match function, closed over the user data. *)
Record GtkFilter : Type := {
  filter_match : option BzTransactionTask -> bool
}.

(** What [get_main_icon] hands back: a new reference to a paintable of the
    entry or of its group, or the result of the icon-theme lookup. *)
Inductive icon : Type :=
| icon_ref (p : GdkPaintable)
| icon_theme_lookup (icon_name : string) (size scale : Z).

Definition invert_boolean (value : bool) : bool := negb value.

Definition is_null {A : Type} (value : option A) : bool :=
  match value with None => true | Some _ => false end.

Definition filter_finished_ops_by_app_id
    (item : option BzTransactionTask)
    (user_data : option BzTransactionEntryTracker) : bool :=
  match item, user_data with
  | Some task, Some tracker =>
      match task_error task with
      | Some _ => true
      | None =>
          match tracker_entry tracker with
          | None => true
          | Some entry =>
              match entry_id entry with
              | None => true
              | Some id =>
                  match task_op task with
                  | None => true
                  | Some op =>
                      match payload_name op with
                      | None => true
                      | Some op_name =>
                          match strstr op_name id with
                          | None => true
                          | Some _ => false
                          end
                      end
                  end
              end
          end
      end
  | _, _ => true
  end.

Definition create_app_id_filter
    (tracker : option BzTransactionEntryTracker) : option GtkFilter :=
  match tracker with
  | None => None
  | Some t =>
      Some {| filter_match := fun item => filter_finished_ops_by_app_id item (Some t) |}
  end.

Definition is_transaction_type
    (tracker : option BzTransactionEntryTracker) (type : Z) : bool :=
  match tracker with
  | None => false
  | Some t => tracker_type_enum t =? type
  end.

Definition list_has_items (model : option GListModel) : bool :=
  match model with
  | None => false
  | Some m => (0 <? n_items m)%N
  end.

Definition is_both (first second : bool) : bool := first && second.

Definition is_entry_kind
    (tracker : option BzTransactionEntryTracker) (kind : Z) : bool :=
  match tracker with
  | None => false
  | Some t =>
      match tracker_entry t with
      | None => false
      | Some entry => entry_is_of_kinds entry kind
      end
  end.

Section Resolve.

(** [BZ_ENTRY_KIND_APPLICATION], declared in bz-entry.h. *)
Variable BZ_ENTRY_KIND_APPLICATION : Z.

(** The text of [generic_id] once the byte at [generic_id_term] has been
    overwritten with the terminator. *)
Definition terminate_at (generic_id : string) (generic_id_term : option string) : string :=
  match generic_id_term with
  | None => generic_id
  | Some term =>
      String.substring 0 (String.length generic_id - String.length term) generic_id
  end.

Definition resolve_group_from_entry (entry : BzEntry) (window : BzWindow)
  : option BzEntryGroup :=
  match window_state_info window with
  | None => None
  | Some info =>
      let by_id :=
        if entry_is_of_kinds entry BZ_ENTRY_KIND_APPLICATION
        then application_factory_convert_one info (entry_id entry)
        else None in
      match by_id with
      | Some group => Some group
      | None =>
          match addon_extension_of_ref entry with
          | None => None
          | Some extension_of_ref =>
              match strchr extension_of_ref "/" with
              | None => None
              | Some at_slash =>
                  let generic_id :=
                    match at_slash with
                    | String _ rest => rest
                    | EmptyString => EmptyString
                    end in
                  let generic_id_term := strchr generic_id "/" in
                  application_factory_convert_one info
                    (Some (terminate_at generic_id generic_id_term))
              end
          end
      end
  end.

Definition return_generic : icon :=
  icon_theme_lookup "application-x-executable" 64 1.

Definition get_main_icon
    (list_item : GtkListItem)
    (tracker : option BzTransactionEntryTracker) : icon :=
  match tracker with
  | None => return_generic
  | Some t =>
      match tracker_entry t with
      | None => return_generic
      | Some entry =>
          match entry_icon_paintable entry with
          | Some icon_paintable => icon_ref icon_paintable
          | None =>
              if entry_is_flatpak entry then
                match child_ancestor_window list_item with
                | None => return_generic
                | Some window =>
                    match resolve_group_from_entry entry window with
                    | None => return_generic
                    | Some group =>
                        match group_icon_paintable group with
                        | Some icon_paintable => icon_ref icon_paintable
                        | None => return_generic
                        end
                    end
                end
              else return_generic
          end
      end
  end.

End Resolve.

Definition bz_transaction_view_get_transaction (self : BzTransactionView)
  : option BzTransaction :=
  transaction self.

Definition bz_transaction_view_set_transaction
    (self : BzTransactionView) (new_transaction : option BzTransaction)
  : BzTransactionView :=
  let cleared := {| transaction := None; notified := notified self |} in
  let stored :=
    match new_transaction with
    | Some t => {| transaction := Some t; notified := notified cleared |}
    | None => cleared
    end in
  {| transaction := transaction stored;
     notified := notified stored ++ [PROP_TRANSACTION] |}.

End TransactionView.

(* ================================================================= *)
(** ** bz-screenshot.c *)

Module Screenshot.

Definition TOP_HALF_FIXED_WIDTH : Z := 650.
Definition TOP_HALF_FIXED_HEIGHT : Z := 265.

Inductive GskScalingFilter : Type :=
| GSK_SCALING_FILTER_LINEAR
| GSK_SCALING_FILTER_NEAREST
| GSK_SCALING_FILTER_TRILINEAR.

Definition GskScalingFilter_eqb (a b : GskScalingFilter) : bool :=
  match a, b with
  | GSK_SCALING_FILTER_LINEAR, GSK_SCALING_FILTER_LINEAR
  | GSK_SCALING_FILTER_NEAREST, GSK_SCALING_FILTER_NEAREST
  | GSK_SCALING_FILTER_TRILINEAR, GSK_SCALING_FILTER_TRILINEAR => true
  | _, _ => false
  end.

Inductive GtkOrientation : Type :=
| GTK_ORIENTATION_HORIZONTAL
| GTK_ORIENTATION_VERTICAL.

Inductive GtkSizeRequestMode : Type :=
| GTK_SIZE_REQUEST_HEIGHT_FOR_WIDTH
| GTK_SIZE_REQUEST_WIDTH_FOR_HEIGHT
| GTK_SIZE_REQUEST_CONSTANT_SIZE.

Inductive property : Type :=
| PROP_PAINTABLE
| PROP_FOCUS_X
| PROP_FOCUS_Y
| PROP_ROUNDED_CORNERS
| PROP_TOP_HALF
| PROP_FILTER.

(** The three callbacks the widget connects to its paintable. *)
Inductive handler : Type :=
| invalidate_contents
| invalidate_size
| async_loaded.

(** The part of the [GtkWidget] base instance the code reads or writes:
    the allocated size, how many redraws and resizes were queued, the
    property notifications emitted so far (oldest first), and the signal
    connections that carry this widget as their data, each with the
    identity of the paintable it is made on. *)
Record GtkWidget : Type := {
  widget_width : Z;
  widget_height : Z;
  queued_draws : nat;
  queued_resizes : nat;
  notified : list property;
  connections : list (nat * handler)
}.

Record BzScreenshot : Type := {
  parent_instance : GtkWidget;
  paintable : option GdkPaintable;
  focus_x : double;
  focus_y : double;
  rounded_corners : bool;
  top_half : bool;
  filter : GskScalingFilter
}.

(** *** Effects on the base instance *)

Definition with_parent (self : BzScreenshot) (w : GtkWidget) : BzScreenshot :=
  {| parent_instance := w;
     paintable := paintable self;
     focus_x := focus_x self;
     focus_y := focus_y self;
     rounded_corners := rounded_corners self;
     top_half := top_half self;
     filter := filter self |}.

Definition gtk_widget_queue_draw (self : BzScreenshot) : BzScreenshot :=
  let w := parent_instance self in
  with_parent self
    {| widget_width := widget_width w; widget_height := widget_height w;
       queued_draws := S (queued_draws w); queued_resizes := queued_resizes w;
       notified := notified w; connections := connections w |}.

Definition gtk_widget_queue_resize (self : BzScreenshot) : BzScreenshot :=
  let w := parent_instance self in
  with_parent self
    {| widget_width := widget_width w; widget_height := widget_height w;
       queued_draws := queued_draws w; queued_resizes := S (queued_resizes w);
       notified := notified w; connections := connections w |}.

Definition g_object_notify_by_pspec (self : BzScreenshot) (p : property) : BzScreenshot :=
  let w := parent_instance self in
  with_parent self
    {| widget_width := widget_width w; widget_height := widget_height w;
       queued_draws := queued_draws w; queued_resizes := queued_resizes w;
       notified := notified w ++ [p]; connections := connections w |}.

Definition with_connections (self : BzScreenshot) (c : list (nat * handler)) : BzScreenshot :=
  let w := parent_instance self in
  with_parent self
    {| widget_width := widget_width w; widget_height := widget_height w;
       queued_draws := queued_draws w; queued_resizes := queued_resizes w;
       notified := notified w; connections := c |}.

Definition handler_eqb (a b : handler) : bool :=
  match a, b with
  | invalidate_contents, invalidate_contents
  | invalidate_size, invalidate_size
  | async_loaded, async_loaded => true
  | _, _ => false
  end.

Definition g_signal_handlers_disconnect_by_func
    (self : BzScreenshot) (instance : GdkPaintable) (func : handler) : BzScreenshot :=
  with_connections self
    (List.filter
       (fun c => negb (Nat.eqb (fst c) (paintable_id instance) && handler_eqb (snd c) func))
       (connections (parent_instance self))).

Definition g_signal_connect_swapped
    (self : BzScreenshot) (instance : GdkPaintable) (func : handler) : BzScreenshot :=
  with_connections self
    (connections (parent_instance self) ++ [(paintable_id instance, func)]).

(** *** Size negotiation *)

Definition bz_screenshot_get_request_mode (self : BzScreenshot) : GtkSizeRequestMode :=
  if top_half self then GTK_SIZE_REQUEST_CONSTANT_SIZE
  else GTK_SIZE_REQUEST_HEIGHT_FOR_WIDTH.

(** The four output parameters of [measure]. *)
Record measure_out : Type := {
  minimum : Z;
  natural : Z;
  minimum_baseline : Z;
  natural_baseline : Z
}.

Definition set_minimum_natural (out : measure_out) (min nat : Z) : measure_out :=
  {| minimum := min; natural := nat;
     minimum_baseline := minimum_baseline out;
     natural_baseline := natural_baseline out |}.

(** [None] stands for undefined behaviour in a conversion to [int]. *)
Definition bz_screenshot_measure
    (self : BzScreenshot) (orientation : GtkOrientation) (for_size : Z)
    (out : measure_out) : Trace.M (option measure_out) :=
  match paintable self with
  | None => Trace.ret (Some out)
  | Some p =>
      if top_half self then
        match orientation with
        | GTK_ORIENTATION_HORIZONTAL =>
            Trace.ret (Some (set_minimum_natural out TOP_HALF_FIXED_WIDTH TOP_HALF_FIXED_WIDTH))
        | _ =>
            Trace.ret (Some (set_minimum_natural out TOP_HALF_FIXED_HEIGHT TOP_HALF_FIXED_HEIGHT))
        end
      else
        match orientation with
        | GTK_ORIENTATION_VERTICAL =>
            let intrinsic_height := intrinsic_height p in
            let intrinsic_aspect_ratio := intrinsic_aspect_ratio p in
            if (0 <=? for_size) && dgt intrinsic_aspect_ratio d0 then
              quotient <- Trace.div (double_of_int for_size) intrinsic_aspect_ratio ;;
              let result := ceil quotient in
              Trace.ret
                match int_of_double (MIN (double_of_int intrinsic_height) result),
                      int_of_double (MIN (double_of_int intrinsic_height) result) with
                | Some min, Some nat => Some (set_minimum_natural out min nat)
                | _, _ => None
                end
            else
              Trace.ret (Some (set_minimum_natural out 0 intrinsic_height))
        | _ =>
            Trace.ret (Some (set_minimum_natural out 0 (intrinsic_width p)))
        end
  end.

(** *** Drawing: the placement computed by [bz_screenshot_snapshot]

    The values of [scaled_w], [scaled_h], [x] and [y] once the placement
    has been computed, that is before the clip is pushed; [None] when the
    function returns at once because there is no paintable. *)
Record placement : Type := {
  scaled_w : double;
  scaled_h : double;
  x : double;
  y : double
}.

Definition bz_screenshot_snapshot (self : BzScreenshot) : Trace.M (option placement) :=
  match paintable self with
  | None => Trace.ret None
  | Some p =>
      let widget_width := widget_width (parent_instance self) in
      let widget_height := widget_height (parent_instance self) in
      let paintable_aspect := intrinsic_aspect_ratio p in
      if top_half self then
        let scaled_w := double_of_int TOP_HALF_FIXED_WIDTH in
        scaled_h <- (if dgt paintable_aspect d0
                     then Trace.div scaled_w paintable_aspect
                     else Trace.ret (dmul (double_of_int widget_height) d2)) ;;
        x <- Trace.div (dsub (double_of_int widget_width) scaled_w) d2 ;;
        let y := double_of_int 0 in
        Trace.ret (Some {| scaled_w := scaled_w; scaled_h := scaled_h; x := x; y := y |})
      else
        '(scaled_w, scaled_h) <-
          (if dgt paintable_aspect d0 then
             let scaled_w := double_of_int widget_width in
             scaled_h <- Trace.div scaled_w paintable_aspect ;;
             if dgt scaled_h (double_of_int widget_height) then
               let scaled_h := double_of_int widget_height in
               let scaled_w := dmul scaled_h paintable_aspect in
               Trace.ret (scaled_w, scaled_h)
             else Trace.ret (scaled_w, scaled_h)
           else
             Trace.ret (double_of_int widget_width, double_of_int widget_height)) ;;
        x <- Trace.div (dsub (double_of_int widget_width) scaled_w) d2 ;;
        y <- Trace.div (dsub (double_of_int widget_height) scaled_h) d2 ;;
        Trace.ret (Some {| scaled_w := scaled_w; scaled_h := scaled_h; x := x; y := y |})
  end.

(** *** Properties *)

Definition bz_screenshot_init (w : GtkWidget) : BzScreenshot :=
  {| parent_instance := w;
     paintable := None;
     focus_x := SFopp (double_of_int 1);
     focus_y := SFopp (double_of_int 1);
     rounded_corners := true;
     top_half := false;
     filter := GSK_SCALING_FILTER_TRILINEAR |}.

Definition disconnect_paintable (self : BzScreenshot) : BzScreenshot :=
  match paintable self with
  | Some old =>
      let self := g_signal_handlers_disconnect_by_func self old invalidate_contents in
      let self := g_signal_handlers_disconnect_by_func self old invalidate_size in
      g_signal_handlers_disconnect_by_func self old async_loaded
  | None => self
  end.

Definition store_paintable (self : BzScreenshot) (p : option GdkPaintable) : BzScreenshot :=
  {| parent_instance := parent_instance self;
     paintable := p;
     focus_x := focus_x self;
     focus_y := focus_y self;
     rounded_corners := rounded_corners self;
     top_half := top_half self;
     filter := filter self |}.

Definition bz_screenshot_set_paintable
    (self : BzScreenshot) (new_paintable : option GdkPaintable) : BzScreenshot :=
  let self := disconnect_paintable self in
  let self := store_paintable self None in
  let self :=
    match new_paintable with
    | Some p =>
        let self := store_paintable self (Some p) in
        let self := g_signal_connect_swapped self p invalidate_contents in
        let self := g_signal_connect_swapped self p invalidate_size in
        match paintable_type_of p with
        | BZ_ASYNC_TEXTURE => g_signal_connect_swapped self p async_loaded
        | _ => self
        end
    | None => self
    end in
  let self := gtk_widget_queue_resize self in
  let self := gtk_widget_queue_draw self in
  g_object_notify_by_pspec self PROP_PAINTABLE.

Definition bz_screenshot_get_paintable (self : BzScreenshot) : option GdkPaintable :=
  paintable self.

Definition bz_screenshot_set_focus_x (self : BzScreenshot) (new_focus_x : double)
  : BzScreenshot :=
  let self :=
    {| parent_instance := parent_instance self;
       paintable := paintable self;
       focus_x := new_focus_x;
       focus_y := focus_y self;
       rounded_corners := rounded_corners self;
       top_half := top_half self;
       filter := filter self |} in
  let self := gtk_widget_queue_draw self in
  g_object_notify_by_pspec self PROP_FOCUS_X.

Definition bz_screenshot_get_focus_x (self : BzScreenshot) : double := focus_x self.

Definition bz_screenshot_set_focus_y (self : BzScreenshot) (new_focus_y : double)
  : BzScreenshot :=
  let self :=
    {| parent_instance := parent_instance self;
       paintable := paintable self;
       focus_x := focus_x self;
       focus_y := new_focus_y;
       rounded_corners := rounded_corners self;
       top_half := top_half self;
       filter := filter self |} in
  let self := gtk_widget_queue_draw self in
  g_object_notify_by_pspec self PROP_FOCUS_Y.

Definition bz_screenshot_get_focus_y (self : BzScreenshot) : double := focus_y self.

Definition bz_screenshot_set_rounded_corners (self : BzScreenshot) (new_rounded_corners : bool)
  : BzScreenshot :=
  if Bool.eqb (rounded_corners self) new_rounded_corners then self
  else
    let self :=
      {| parent_instance := parent_instance self;
         paintable := paintable self;
         focus_x := focus_x self;
         focus_y := focus_y self;
         rounded_corners := new_rounded_corners;
         top_half := top_half self;
         filter := filter self |} in
    let self := gtk_widget_queue_draw self in
    g_object_notify_by_pspec self PROP_ROUNDED_CORNERS.

Definition bz_screenshot_get_rounded_corners (self : BzScreenshot) : bool :=
  rounded_corners self.

Definition bz_screenshot_set_top_half (self : BzScreenshot) (new_top_half : bool)
  : BzScreenshot :=
  if Bool.eqb (top_half self) new_top_half then self
  else
    let self :=
      {| parent_instance := parent_instance self;
         paintable := paintable self;
         focus_x := focus_x self;
         focus_y := focus_y self;
         rounded_corners := rounded_corners self;
         top_half := new_top_half;
         filter := filter self |} in
    let self := gtk_widget_queue_resize self in
    let self := gtk_widget_queue_draw self in
    g_object_notify_by_pspec self PROP_TOP_HALF.

Definition bz_screenshot_get_top_half (self : BzScreenshot) : bool := top_half self.

Definition bz_screenshot_set_filter (self : BzScreenshot) (new_filter : GskScalingFilter)
  : BzScreenshot :=
  if GskScalingFilter_eqb (filter self) new_filter then self
  else
    let self :=
      {| parent_instance := parent_instance self;
         paintable := paintable self;
         focus_x := focus_x self;
         focus_y := focus_y self;
         rounded_corners := rounded_corners self;
         top_half := top_half self;
         filter := new_filter |} in
    let self := gtk_widget_queue_draw self in
    g_object_notify_by_pspec self PROP_FILTER.

Definition bz_screenshot_get_filter (self : BzScreenshot) : GskScalingFilter := filter self.

End Screenshot.

(* ================================================================= *)
(** ** bz-screenshot.c: object life cycle, property interface and drawing *)

Module ScreenshotObject.
Import Screenshot.

(** [bz_screenshot_dispose], up to the call of the parent class's
    [dispose]. *)
Definition bz_screenshot_dispose (self : BzScreenshot) : BzScreenshot :=
  let self := disconnect_paintable self in
  store_paintable self None.

(** The three static callbacks. In [Screenshot.handler] their names stand for
    the identity of the callback a connection carries; here is what each
    does when its signal fires. *)
Definition invalidate_contents_cb (self : BzScreenshot) : BzScreenshot :=
  gtk_widget_queue_draw self.

Definition invalidate_size_cb (self : BzScreenshot) : BzScreenshot :=
  gtk_widget_queue_resize self.

Definition async_loaded_cb (self : BzScreenshot) : BzScreenshot :=
  let self := gtk_widget_queue_draw self in
  gtk_widget_queue_resize self.

(** *** The GObject property interface *)

(** The numbers of the anonymous [enum] of property identifiers. *)
Definition PROP_0 : Z := 0.
Definition LAST_PROP : Z := 7.

Definition prop_id (p : property) : Z :=
  match p with
  | PROP_PAINTABLE => 1
  | PROP_FOCUS_X => 2
  | PROP_FOCUS_Y => 3
  | PROP_ROUNDED_CORNERS => 4
  | PROP_TOP_HALF => 5
  | PROP_FILTER => 6
  end.

(** A [GValue], as far as the four types of the widget's properties go. *)
Inductive GValue : Type :=
| G_VALUE_OBJECT (o : option GdkPaintable)
| G_VALUE_DOUBLE (d : double)
| G_VALUE_BOOLEAN (b : bool)
| G_VALUE_ENUM (e : GskScalingFilter).

(** [g_value_get_object] and its siblings: nothing when the value holds
    another type, which is a violated precondition of glib. *)
Definition g_value_get_object (v : GValue) : option (option GdkPaintable) :=
  match v with G_VALUE_OBJECT o => Some o | _ => None end.
Definition g_value_get_double (v : GValue) : option double :=
  match v with G_VALUE_DOUBLE d => Some d | _ => None end.
Definition g_value_get_boolean (v : GValue) : option bool :=
  match v with G_VALUE_BOOLEAN b => Some b | _ => None end.
Definition g_value_get_enum (v : GValue) : option GskScalingFilter :=
  match v with G_VALUE_ENUM e => Some e | _ => None end.

(** The value left in [value] by [bz_screenshot_get_property]; an unknown
    identifier is warned about and [value] stays as it was. *)
Definition bz_screenshot_get_property
    (self : BzScreenshot) (id : Z) (value : GValue) : GValue :=
  match id with
  | 1 => G_VALUE_OBJECT (bz_screenshot_get_paintable self)
  | 2 => G_VALUE_DOUBLE (bz_screenshot_get_focus_x self)
  | 3 => G_VALUE_DOUBLE (bz_screenshot_get_focus_y self)
  | 4 => G_VALUE_BOOLEAN (bz_screenshot_get_rounded_corners self)
  | 5 => G_VALUE_BOOLEAN (bz_screenshot_get_top_half self)
  | 6 => G_VALUE_ENUM (bz_screenshot_get_filter self)
  | _ => value
  end.

(** [bz_screenshot_set_property]; [None] when [value] does not hold the
    type the property is read at. *)
Definition bz_screenshot_set_property
    (self : BzScreenshot) (id : Z) (value : GValue) : option BzScreenshot :=
  match id with
  | 1 => option_map (bz_screenshot_set_paintable self) (g_value_get_object value)
  | 2 => option_map (bz_screenshot_set_focus_x self) (g_value_get_double value)
  | 3 => option_map (bz_screenshot_set_focus_y self) (g_value_get_double value)
  | 4 => option_map (bz_screenshot_set_rounded_corners self) (g_value_get_boolean value)
  | 5 => option_map (bz_screenshot_set_top_half self) (g_value_get_boolean value)
  | 6 => option_map (bz_screenshot_set_filter self) (g_value_get_enum value)
  | _ => Some self
  end.

(** *** Drawing: what [bz_screenshot_snapshot] records into the snapshot *)

(** C [float] is IEEE-754 binary32 ([prec = 24], [emax = 128]); graphene's
    points, sizes and rectangles are made of them. *)
Definition float : Type := spec_float.

(** The conversions to [float] that the initialisers of graphene's
    structures perform, rounding to nearest. *)
Definition float_of_double (x : double) : float :=
  match x with
  | S754_finite s m e => binary_round 24 128 s m e
  | _ => x
  end.

Definition float_of_int (i : Z) : float := binary_normalize 24 128 i 0 false.

Record graphene_point_t : Type := { point_x : float; point_y : float }.
Record graphene_size_t : Type := { size_width : float; size_height : float }.
Record graphene_rect_t : Type := { origin : graphene_point_t; size : graphene_size_t }.
Record GskRoundedRect : Type := { bounds : graphene_rect_t; corner : list graphene_size_t }.

Definition GRAPHENE_RECT_INIT (x y w h : float) : graphene_rect_t :=
  {| origin := {| point_x := x; point_y := y |};
     size := {| size_width := w; size_height := h |} |}.

Definition GRAPHENE_POINT_INIT (x y : float) : graphene_point_t :=
  {| point_x := x; point_y := y |}.

Record GdkTexture : Type := { texture_id : nat }.

(** The cast [GDK_TEXTURE (paintable)] of a paintable that is a texture. *)
Definition GDK_TEXTURE_cast (p : GdkPaintable) : GdkTexture :=
  {| texture_id := paintable_id p |}.

(** The calls made on the [GtkSnapshot], in order. *)
Inductive snapshot_op : Type :=
| gtk_snapshot_push_rounded_clip (r : GskRoundedRect)
| gtk_snapshot_push_clip (r : graphene_rect_t)
| gtk_snapshot_translate (p : graphene_point_t)
| gtk_snapshot_append_scaled_texture
    (texture : GdkTexture) (f : GskScalingFilter) (r : graphene_rect_t)
| gdk_paintable_snapshot (p : GdkPaintable) (w h : double)
| gtk_snapshot_pop.

Definition is_nearest (f : GskScalingFilter) : bool :=
  GskScalingFilter_eqb f GSK_SCALING_FILTER_NEAREST.

Section Draw.

(** [bz_async_texture_dup_texture], of bz-async-texture.c: the texture of an
    asynchronous texture once it is loaded, NULL before. *)
Variable bz_async_texture_dup_texture : GdkPaintable -> option GdkTexture.

(** The calls [bz_screenshot_snapshot] makes once the placement is computed
    (source lines 279 to 334); none when it returned at once. *)
Definition bz_screenshot_snapshot_draw (self : BzScreenshot) : list snapshot_op :=
  match paintable self, Trace.value (bz_screenshot_snapshot self) with
  | Some p, Some pl =>
      let widget_width := widget_width (parent_instance self) in
      let widget_height := widget_height (parent_instance self) in
      let ten := float_of_double (double_of_int 10) in
      let corners := [ {| size_width := ten; size_height := ten |};
                       {| size_width := ten; size_height := ten |};
                       {| size_width := ten; size_height := ten |};
                       {| size_width := ten; size_height := ten |} ] in
      let widget_rect :=
        GRAPHENE_RECT_INIT (float_of_int 0) (float_of_int 0)
          (float_of_int widget_width) (float_of_int widget_height) in
      let scaled_rect :=
        GRAPHENE_RECT_INIT (float_of_double d0) (float_of_double d0)
          (float_of_double (scaled_w pl)) (float_of_double (scaled_h pl)) in
      (if rounded_corners self then
         if top_half self then
           [ gtk_snapshot_push_rounded_clip
               {| bounds := GRAPHENE_RECT_INIT
                              (float_of_double (x pl)) (float_of_double (y pl))
                              (float_of_double (scaled_w pl)) (float_of_double (scaled_h pl));
                  corner := corners |};
             gtk_snapshot_push_clip widget_rect ]
         else
           [ gtk_snapshot_push_rounded_clip {| bounds := widget_rect; corner := corners |} ]
       else [])
      ++ [ gtk_snapshot_translate
             (GRAPHENE_POINT_INIT (float_of_double (x pl)) (float_of_double (y pl))) ]
      ++ (match is_nearest (filter self), paintable_type_of p with
          | true, BZ_ASYNC_TEXTURE =>
              match bz_async_texture_dup_texture p with
              | Some texture =>
                  [ gtk_snapshot_append_scaled_texture texture (filter self) scaled_rect ]
              | None => []
              end
          | true, GDK_TEXTURE =>
              [ gtk_snapshot_append_scaled_texture (GDK_TEXTURE_cast p) (filter self)
                  scaled_rect ]
          | _, _ => [ gdk_paintable_snapshot p (scaled_w pl) (scaled_h pl) ]
          end)
      ++ (if rounded_corners self then
            gtk_snapshot_pop :: (if top_half self then [gtk_snapshot_pop] else [])
          else [])
  | _, _ => []
  end.

End Draw.

End ScreenshotObject.

(* ================================================================= *)
(** ** bz-transaction-view.c: the formatting callbacks *)

Module TransactionViewFormat.

Definition UINT64_MAX : Z := 2 ^ 64 - 1.

(** The conversion [(double) n] of a [guint64], rounding to nearest. *)
Definition double_of_uint64 (n : Z) : double := binary_normalize prec emax n 0 false.

(** The conversion [(guint64) x]: defined only when the truncated value is a
    [guint64]. *)
Definition uint64_of_double (x : double) : option Z :=
  match double_truncate x with
  | Some z => if (0 <=? z) && (z <=? UINT64_MAX) then Some z else None
  | None => None
  end.

Section Format.

(** glib's [g_format_size]. *)
Variable g_format_size : Z -> string.

Definition format_download_size (value : Z) : string := g_format_size value.

Definition format_installed_size (value : Z) : string := g_format_size value.

(** The number of bytes [format_download_progress] reports as downloaded;
    [None] is undefined behaviour in the conversion. *)
Definition downloaded_bytes (progress : double) (total_size : Z) : option Z :=
  uint64_of_double (dmul progress (double_of_uint64 total_size)).

Definition format_download_progress (progress : double) (total_size : Z) : option string :=
  match downloaded_bytes progress total_size with
  | Some downloaded =>
      let downloaded_str := g_format_size downloaded in
      let total_str := g_format_size total_size in
      Some (downloaded_str ++ " / " ++ total_str)%string
  | None => None
  end.

End Format.

End TransactionViewFormat.

(* ================================================================= *)
(** * Vocabulary of the properties *)

(** ** Strings *)

Module StringSpec.

(** [id] occurs in [name]. *)
Definition contains (name id : string) : Prop :=
  exists before after : string, name = (before ++ id ++ after)%string.

End StringSpec.

(** ** Binary64 values *)

Module Binary64.

(** The value of [m * 2^e] counted in units of [2^-1074], the smallest
    positive double: every finite double is a whole number of them. *)
Definition ulps (m e : Z) : Z := m * 2 ^ (e + 1074).

(** The exact value of a finite double in those units. *)
Definition SF2ulps (x : spec_float) : Z :=
  match x with
  | S754_finite s m e => cond_Zopp s (ulps (Zpos m) e)
  | _ => 0
  end.

Definition is_finite_SF (x : spec_float) : bool :=
  match x with
  | S754_zero _ | S754_finite _ _ _ => true
  | _ => false
  end.

(** The integer ceiling of the exact value of a finite double; nothing for
    the infinities and NaN. *)
Definition double_ceiling (x : double) : option Z :=
  match x with
  | S754_zero _ => Some 0
  | S754_finite _ _ _ => Some (- ((- SF2ulps x) / 2 ^ 1074))
  | S754_infinity _ | S754_nan => None
  end.

(** The fraction [N / D] lies in [[m, m + 1)], at the place [l] says:
    on [m], or strictly inside and below, at or above the middle. *)
Definition inbetween (N D m : Z) (l : location) : Prop :=
  match l with
  | loc_Exact => N = m * D
  | loc_Inexact c => m * D < N < (m + 1) * D /\ (2 * N ?= (2 * m + 1) * D) = c
  end.

(** What rounding to binary64 returns for a magnitude of [v] units and the
    sign [s]: a zero, a well-formed finite double of that value, or an
    infinity when [v] is at least [2^1024]. *)
Inductive rounded (s : bool) (v : Z) : spec_float -> Prop :=
| rounded_zero : v = 0 -> rounded s v (S754_zero s)
| rounded_finite (m : positive) (e : Z) :
    bounded prec emax m e = true -> ulps (Zpos m) e = v ->
    rounded s v (S754_finite s m e)
| rounded_infinity : 2 ^ (1024 + 1074) <= v -> rounded s v (S754_infinity s).

(** [N / D * 2^e <= F * 2^-1074], without fractions. *)
Definition frac_le_ulps (N D e F : Z) : Prop :=
  exists a b, 0 <= a /\ 0 <= b /\ a - b = e + 1074 /\ N * 2 ^ a <= F * D * 2 ^ b.

End Binary64.

(** ** bz-transaction-view.c *)

Module TransactionViewSpec.
Import TransactionView.

(** The filter's inputs are all there: the task and the tracker are
    non-null, no error is recorded on the task, and the entry, its
    identifier [id], the operation payload and its name [op_name] are
    non-null. *)
Definition regular
    (item : option BzTransactionTask) (user_data : option BzTransactionEntryTracker)
    (op_name id : string) : Prop :=
  exists task tracker entry op,
    item = Some task /\ user_data = Some tracker /\
    task_error task = None /\
    tracker_entry tracker = Some entry /\ entry_id entry = Some id /\
    task_op task = Some op /\ payload_name op = Some op_name.

(** The group [get_main_icon] resolves for the entry of [tracker], when it
    gets that far: nothing without a tracker, an entry or a window. *)
Definition resolved_group (app_kind : Z)
    (list_item : GtkListItem) (tracker : option BzTransactionEntryTracker)
  : option BzEntryGroup :=
  match tracker with
  | Some t =>
      match tracker_entry t, child_ancestor_window list_item with
      | Some entry, Some window => resolve_group_from_entry app_kind entry window
      | _, _ => None
      end
  | None => None
  end.

(** The icon paintable of the tracker's entry, if there is one. *)
Definition entry_icon (tracker : option BzTransactionEntryTracker) : option GdkPaintable :=
  match tracker with
  | Some t =>
      match tracker_entry t with
      | Some entry => entry_icon_paintable entry
      | None => None
      end
  | None => None
  end.

(** An installed application and the task that installs it. *)
Definition sample_entry : BzEntry :=
  {| entry_id := Some "org.gnome.Maps"%string;
     entry_icon_paintable := None;
     entry_is_of_kinds := fun _ => true;
     entry_is_flatpak := true;
     addon_extension_of_ref := None |}.

Definition sample_tracker : BzTransactionEntryTracker :=
  {| tracker_entry := Some sample_entry; tracker_type_enum := 0 |}.

Definition sample_task : BzTransactionTask :=
  {| task_error := None;
     task_op := Some {| payload_name := Some "app/org.gnome.Maps/x86_64/stable"%string |} |}.

End TransactionViewSpec.

(** ** bz-screenshot.c *)

Module ScreenshotSpec.
Import Screenshot.

(** The notifications a call emitted: those of the state after it that
    were not there before it. *)
Definition emitted (before after : BzScreenshot) (l : list property) : Prop :=
  notified (parent_instance after) = notified (parent_instance before) ++ l.

(** A division whose divisor compares greater than zero; such a divisor is
    neither of the two zeros. *)
Definition positive_divisor (d : Trace.division) : Prop :=
  dgt (Trace.divisor d) d0 = true /\ forall s, Trace.divisor d <> S754_zero s.

(** A freshly initialised widget, allocated one pixel by one pixel. *)
Definition sample_widget : GtkWidget :=
  {| widget_width := 1; widget_height := 1;
     queued_draws := 0; queued_resizes := 0;
     notified := []; connections := [] |}.

Definition sample_screenshot : BzScreenshot := bz_screenshot_init sample_widget.

(** A texture 49 pixels wide and one pixel high. *)
Definition sample_paintable : GdkPaintable :=
  {| paintable_id := 0;
     paintable_type_of := GDK_TEXTURE;
     intrinsic_width := 49;
     intrinsic_height := 1;
     intrinsic_aspect_ratio := double_of_int 49 |}.

Definition sample_fit : BzScreenshot :=
  bz_screenshot_set_paintable sample_screenshot (Some sample_paintable).

Definition sample_top_half : BzScreenshot :=
  bz_screenshot_set_top_half sample_fit true.

(** A paintable without an intrinsic size: its aspect ratio is zero. *)
Definition sample_flat_paintable : GdkPaintable :=
  {| paintable_id := 1;
     paintable_type_of := GDK_OTHER_PAINTABLE;
     intrinsic_width := 0;
     intrinsic_height := 0;
     intrinsic_aspect_ratio := d0 |}.

Definition sample_flat : BzScreenshot :=
  bz_screenshot_set_paintable sample_screenshot (Some sample_flat_paintable).

(** A texture of 1200 by 600 pixels. *)
Definition sample_wide_paintable : GdkPaintable :=
  {| paintable_id := 2;
     paintable_type_of := GDK_TEXTURE;
     intrinsic_width := 1200;
     intrinsic_height := 600;
     intrinsic_aspect_ratio := double_of_int 2 |}.

Definition sample_wide : BzScreenshot :=
  bz_screenshot_set_paintable sample_screenshot (Some sample_wide_paintable).

Definition sample_out : measure_out :=
  {| minimum := -1; natural := -1; minimum_baseline := -1; natural_baseline := -1 |}.

End ScreenshotSpec.

(** ** bz-screenshot.c: life cycle and drawing *)

Module ScreenshotObjectSpec.
Import Screenshot ScreenshotObject.

(** What can happen to a widget between its initialisation and its
    disposal: a call of one of its setters, or one of the three signals of
    its paintable firing. The step of a signal is the run of its handler on
    the widget; what the paintable itself reports after the change that the
    signal announces is no part of the widget's state, so the properties
    that compare [measure] or [snapshot] before and after a step are stated
    for the setter calls alone. *)
Inductive call : Type :=
| call_set_paintable (p : option GdkPaintable)
| call_set_focus_x (v : double)
| call_set_focus_y (v : double)
| call_set_rounded_corners (v : bool)
| call_set_top_half (v : bool)
| call_set_filter (v : GskScalingFilter)
| signal_invalidate_contents
| signal_invalidate_size
| signal_notify_loaded.

Definition step (self : BzScreenshot) (c : call) : BzScreenshot :=
  match c with
  | call_set_paintable p => bz_screenshot_set_paintable self p
  | call_set_focus_x v => bz_screenshot_set_focus_x self v
  | call_set_focus_y v => bz_screenshot_set_focus_y self v
  | call_set_rounded_corners v => bz_screenshot_set_rounded_corners self v
  | call_set_top_half v => bz_screenshot_set_top_half self v
  | call_set_filter v => bz_screenshot_set_filter self v
  | signal_invalidate_contents => invalidate_contents_cb self
  | signal_invalidate_size => invalidate_size_cb self
  | signal_notify_loaded => async_loaded_cb self
  end.

Definition run (self : BzScreenshot) (calls : list call) : BzScreenshot :=
  fold_left step calls self.

(** The connections a widget showing [p] is meant to hold: the two
    invalidation handlers on [p], and the load handler when [p] is an
    asynchronous texture. *)
Definition handlers_for (p : option GdkPaintable) : list (nat * handler) :=
  match p with
  | None => []
  | Some p =>
      [(paintable_id p, invalidate_contents); (paintable_id p, invalidate_size)]
      ++ match paintable_type_of p with
         | BZ_ASYNC_TEXTURE => [(paintable_id p, async_loaded)]
         | _ => []
         end
  end.

Definition well_connected (self : BzScreenshot) : Prop :=
  connections (parent_instance self) = handlers_for (paintable self).

(** Two widgets that differ at most in their focus point and in what has
    been queued, notified and connected so far. *)
Definition same_but_focus (a b : BzScreenshot) : Prop :=
  paintable a = paintable b /\
  rounded_corners a = rounded_corners b /\
  top_half a = top_half b /\
  filter a = filter b /\
  widget_width (parent_instance a) = widget_width (parent_instance b) /\
  widget_height (parent_instance a) = widget_height (parent_instance b).

(** The number of clips open after [ops], starting from [depth] open ones;
    nothing when a pop finds no clip to close. *)
Fixpoint clip_depth (depth : nat) (ops : list snapshot_op) : option nat :=
  match ops with
  | [] => Some depth
  | gtk_snapshot_push_rounded_clip _ :: rest => clip_depth (S depth) rest
  | gtk_snapshot_push_clip _ :: rest => clip_depth (S depth) rest
  | gtk_snapshot_pop :: rest =>
      match depth with
      | O => None
      | S d => clip_depth d rest
      end
  | _ :: rest => clip_depth depth rest
  end.

Definition is_draw (op : snapshot_op) : bool :=
  match op with
  | gtk_snapshot_append_scaled_texture _ _ _ | gdk_paintable_snapshot _ _ _ => true
  | _ => false
  end.

Definition is_translate (op : snapshot_op) : bool :=
  match op with
  | gtk_snapshot_translate _ => true
  | _ => false
  end.

(** The size a drawing call paints at, as doubles or as the floats of its
    rectangle. *)
Definition drawn_at (pl : placement) (op : snapshot_op) : Prop :=
  match op with
  | gdk_paintable_snapshot _ w h => w = scaled_w pl /\ h = scaled_h pl
  | gtk_snapshot_append_scaled_texture _ _ r =>
      r = GRAPHENE_RECT_INIT (float_of_double d0) (float_of_double d0)
            (float_of_double (scaled_w pl)) (float_of_double (scaled_h pl))
  | _ => False
  end.

(** Some calls to try the properties on. *)
Definition sample_calls : list call :=
  [ call_set_paintable (Some ScreenshotSpec.sample_paintable);
    call_set_top_half true;
    signal_invalidate_size;
    call_set_paintable (Some ScreenshotSpec.sample_wide_paintable);
    call_set_focus_x (double_of_int 3) ].

(** A widget showing the texture of 1200 by 600 pixels, allocated 101
    pixels of width and the 51 pixels of height it asks for at that width. *)
Definition sample_allocated : BzScreenshot :=
  bz_screenshot_set_paintable
    (bz_screenshot_init
       {| widget_width := 101; widget_height := 51;
          queued_draws := 0; queued_resizes := 0;
          notified := []; connections := [] |})
    (Some ScreenshotSpec.sample_wide_paintable).

End ScreenshotObjectSpec.

(** ** bz-screenshot.c: the property interface *)

Module ScreenshotPropertySpec.
Import Screenshot ScreenshotObject ScreenshotObjectSpec.

(** The property a call writes; a signal writes none. *)
Definition own_property (c : call) : option property :=
  match c with
  | call_set_paintable _ => Some PROP_PAINTABLE
  | call_set_focus_x _ => Some PROP_FOCUS_X
  | call_set_focus_y _ => Some PROP_FOCUS_Y
  | call_set_rounded_corners _ => Some PROP_ROUNDED_CORNERS
  | call_set_top_half _ => Some PROP_TOP_HALF
  | call_set_filter _ => Some PROP_FILTER
  | _ => None
  end.

(** An identifier that names no property. *)
Definition invalid_id (id : Z) : Prop := id <= PROP_0 \/ LAST_PROP <= id.

End ScreenshotPropertySpec.

(** ** bz-transaction-view.c: resolving the group of an entry *)

Module TransactionViewResolveSpec.
Import TransactionView.

(** The text has no slash in it. *)
Definition no_slash (s : string) : Prop := ~ In "/"%char (list_ascii_of_string s).

(** What follows the identifier in a flatpak ref: nothing, or a slash and
    the rest of the ref. *)
Definition ref_tail (s : string) : Prop :=
  s = EmptyString \/ exists rest, s = String "/" rest.

(** The lookup by the entry's own identifier, made for applications only,
    found no group. *)
Definition not_found_by_id (app_kind : Z) (entry : BzEntry) (info : BzStateInfo) : Prop :=
  entry_is_of_kinds entry app_kind = false \/
  application_factory_convert_one info (entry_id entry) = None.

(** An addon of an application, and a window whose factory knows the
    application alone. *)
Definition sample_addon : BzEntry :=
  {| entry_id := Some "org.gnome.Maps.Locale"%string;
     entry_icon_paintable := None;
     entry_is_of_kinds := fun _ => false;
     entry_is_flatpak := true;
     addon_extension_of_ref := Some "app/org.gnome.Maps/x86_64/stable"%string |}.

(** A runtime: not an application and not an addon of one. *)
Definition sample_runtime : BzEntry :=
  {| entry_id := Some "org.gnome.Platform"%string;
     entry_icon_paintable := None;
     entry_is_of_kinds := fun _ => false;
     entry_is_flatpak := true;
     addon_extension_of_ref := None |}.

Definition sample_group : BzEntryGroup := {| group_icon_paintable := None |}.

Definition sample_info : BzStateInfo :=
  {| application_factory_convert_one := fun id =>
       match id with
       | Some id => if String.eqb id "org.gnome.Maps" then Some sample_group else None
       | None => None
       end |}.

Definition sample_window : BzWindow := {| window_state_info := Some sample_info |}.

End TransactionViewResolveSpec.

(* ================================================================= *)
(** * Properties *)

(* ================================================================= *)
(** ** Binary64 arithmetic

    Rounding, as the Standard Library specifies it, is followed through its
    steps: aligning the mantissa, rounding to nearest even, and aligning
    again. Values are compared as whole numbers of [2^-1074]. *)

Module FloatFacts.
Import Binary64.

(** *** Exponents, binary digits and powers of two *)

Lemma fexp_eq (e : Z) : fexp prec emax e = Z.max (e - 53) (-1074).
Proof. reflexivity. Qed.

Lemma digits2_pos_bounds (p : positive) :
  2 ^ (Zpos (digits2_pos p) - 1) <= Zpos p < 2 ^ Zpos (digits2_pos p).
Proof.
  induction p as [p IH|p IH|]; simpl digits2_pos.
  - rewrite Pos2Z.inj_succ, Z.pow_succ_r by lia.
    replace (Z.succ (Zpos (digits2_pos p)) - 1) with (Z.succ (Zpos (digits2_pos p) - 1)) by lia.
    rewrite Z.pow_succ_r by lia. lia.
  - rewrite Pos2Z.inj_succ, Z.pow_succ_r by lia.
    replace (Z.succ (Zpos (digits2_pos p)) - 1) with (Z.succ (Zpos (digits2_pos p) - 1)) by lia.
    rewrite Z.pow_succ_r by lia. lia.
  - simpl. lia.
Qed.

Lemma Zdigits2_log2 (m : Z) : 0 < m -> Zdigits2 m = Z.log2 m + 1.
Proof.
  intros Hm. destruct m as [|p|p]; try lia.
  change (Zdigits2 (Zpos p)) with (Zpos (digits2_pos p)).
  pose proof (digits2_pos_bounds p) as H.
  symmetry. apply Z.add_move_r. apply Z.log2_unique; [lia|].
  replace (Z.succ (Zpos (digits2_pos p) - 1)) with (Zpos (digits2_pos p)) by lia.
  exact H.
Qed.

Lemma Zdigits2_bounds (m : Z) :
  0 < m -> 2 ^ (Zdigits2 m - 1) <= m < 2 ^ Zdigits2 m.
Proof.
  intros Hm. destruct m as [|p|p]; try lia. apply digits2_pos_bounds.
Qed.

Lemma Zdigits2_pos (m : Z) : 0 < m -> 0 < Zdigits2 m.
Proof. destruct m; simpl; lia. Qed.

Lemma Zdigits2_unique (m d : Z) : 2 ^ (d - 1) <= m < 2 ^ d -> 0 < d -> Zdigits2 m = d.
Proof.
  intros H Hd.
  assert (0 < m) by (pose proof (Z.pow_pos_nonneg 2 (d - 1)); lia).
  rewrite Zdigits2_log2 by assumption.
  apply Z.add_move_r. apply Z.log2_unique; [lia|].
  replace (Z.succ (d - 1)) with d by lia. exact H.
Qed.

Lemma pow2_pos (k : Z) : 0 <= k -> 0 < 2 ^ k.
Proof. intros; now apply Z.pow_pos_nonneg. Qed.

Lemma pow2_le (a b : Z) : 0 <= a <= b -> 2 ^ a <= 2 ^ b.
Proof. intros. apply Z.pow_le_mono_r; lia. Qed.

Lemma pow2_lt (a b : Z) : 0 <= a < b -> 2 ^ a < 2 ^ b.
Proof. intros. apply Z.pow_lt_mono_r; lia. Qed.

(* shr *)
(** *** Shifting a mantissa right, with its round and sticky bits *)

Lemma iter_pos_nat {A} (f : A -> A) (n : positive) (x : A) :
  iter_pos f n x = Nat.iter (Pos.to_nat n) f x.
Proof.
  revert x. induction n as [n IH|n IH|]; intros x; simpl iter_pos.
  - rewrite !IH, Pos2Nat.inj_xI. simpl Nat.iter.
    rewrite <- Nat.iter_add. replace (Pos.to_nat n + Pos.to_nat n)%nat with (2 * Pos.to_nat n)%nat by lia.
    now rewrite <- Nat.iter_succ_r.
  - rewrite !IH, Pos2Nat.inj_xO.
    rewrite <- Nat.iter_add. now replace (Pos.to_nat n + Pos.to_nat n)%nat with (2 * Pos.to_nat n)%nat by lia.
  - reflexivity.
Qed.

Ltac cmp :=
  repeat match goal with
  | H : Z.compare _ _ = Lt |- _ => apply -> Z.compare_lt_iff in H
  | H : Z.compare _ _ = Gt |- _ => apply -> Z.compare_gt_iff in H
  | H : Z.compare _ _ = Eq |- _ => apply -> Z.compare_eq_iff in H
  | |- Z.compare _ _ = Lt => apply <- Z.compare_lt_iff
  | |- Z.compare _ _ = Gt => apply <- Z.compare_gt_iff
  | |- Z.compare _ _ = Eq => apply <- Z.compare_eq_iff
  end.

Lemma loc_of_shr_record_of_loc (m : Z) (l : location) :
  loc_of_shr_record (shr_record_of_loc m l) = l.
Proof. destruct l as [|[]]; reflexivity. Qed.

Lemma shr_m_shr_record_of_loc (m : Z) (l : location) :
  shr_m (shr_record_of_loc m l) = m.
Proof. destruct l as [|[]]; reflexivity. Qed.

Lemma shr_1_m (mrs : shr_record) :
  0 <= shr_m mrs -> shr_m (shr_1 mrs) = shr_m mrs / 2.
Proof.
  destruct mrs as [m r s]. cbn [shr_m]. intros Hm.
  destruct m as [|[p|p|]|]; try lia; cbn [shr_1 shr_m].
  - reflexivity.
  - apply Z.div_unique with 1; lia.
  - apply Z.div_unique with 0; lia.
  - reflexivity.
Qed.

Lemma shr_1_inbetween (N D : Z) (mrs : shr_record) :
  0 < D -> 0 <= shr_m mrs ->
  inbetween N D (shr_m mrs) (loc_of_shr_record mrs) ->
  inbetween N (2 * D) (shr_m (shr_1 mrs)) (loc_of_shr_record (shr_1 mrs)).
Proof.
  destruct mrs as [m r s]. cbn [shr_m]. intros HD Hm.
  destruct m as [|[p|p|]|]; try lia;
    destruct r, s; cbn [shr_1 shr_m loc_of_shr_record orb inbetween];
    intros H;
    lazymatch type of H with
    | _ /\ _ => destruct H as [H1 H2]
    | _ => idtac
    end; cmp;
    lazymatch goal with
    | |- _ /\ _ => split
    | _ => idtac
    end; cmp; try lia.
Qed.

Lemma shr_1_m_nonneg (mrs : shr_record) : 0 <= shr_m mrs -> 0 <= shr_m (shr_1 mrs).
Proof. intros H. rewrite shr_1_m by assumption. apply Z.div_pos; lia. Qed.

Lemma shr_iter (N D : Z) (n : nat) (mrs : shr_record) :
  0 < D -> 0 <= shr_m mrs ->
  inbetween N D (shr_m mrs) (loc_of_shr_record mrs) ->
  0 <= shr_m (Nat.iter n shr_1 mrs) /\
  shr_m (Nat.iter n shr_1 mrs) = shr_m mrs / 2 ^ Z.of_nat n /\
  inbetween N (D * 2 ^ Z.of_nat n)
    (shr_m (Nat.iter n shr_1 mrs)) (loc_of_shr_record (Nat.iter n shr_1 mrs)).
Proof.
  intros HD Hm Hin. induction n as [|n (IH0 & IHm & IHin)].
  - simpl. rewrite Z.div_1_r, Z.mul_1_r. auto.
  - rewrite !Nat.iter_succ, Nat2Z.inj_succ, Z.pow_succ_r by lia.
    split; [now apply shr_1_m_nonneg|]. split.
    + rewrite shr_1_m, IHm by assumption.
      rewrite Z.div_div by (try apply pow2_pos; lia).
      f_equal. lia.
    + replace (D * (2 * 2 ^ Z.of_nat n)) with (2 * (D * 2 ^ Z.of_nat n)) by lia.
      apply shr_1_inbetween; auto.
      pose proof (pow2_pos (Z.of_nat n)). nia.
Qed.

Lemma shr_spec (N D : Z) (mrs : shr_record) (e n : Z) :
  0 < D -> 0 <= shr_m mrs -> 0 <= n ->
  inbetween N D (shr_m mrs) (loc_of_shr_record mrs) ->
  snd (shr mrs e n) = e + n /\
  0 <= shr_m (fst (shr mrs e n)) /\
  shr_m (fst (shr mrs e n)) = shr_m mrs / 2 ^ n /\
  inbetween N (D * 2 ^ n)
    (shr_m (fst (shr mrs e n))) (loc_of_shr_record (fst (shr mrs e n))).
Proof.
  intros HD Hm Hn Hin. destruct n as [|p|p]; try lia.
  - simpl. rewrite Z.div_1_r, Z.mul_1_r, Z.add_0_r. auto.
  - cbn [shr fst snd]. rewrite iter_pos_nat.
    destruct (shr_iter N D (Pos.to_nat p) mrs HD Hm Hin) as (H0 & H1 & H2).
    rewrite positive_nat_Z in H1, H2. auto.
Qed.

(** *** Well-formed mantissas *)

(** A mantissa and exponent are those of a double exactly when the exponent
    is in range, the mantissa has at most 53 bits, and it has all 53 unless
    the exponent is the least one. *)
Lemma bounded_iff (m : positive) (e : Z) :
  bounded prec emax m e = true <->
  (-1074 <= e <= 971 /\ Zpos m < 2 ^ 53 /\ (-1074 < e -> 2 ^ 52 <= Zpos m)).
Proof.
  unfold bounded, canonical_mantissa.
  rewrite Bool.andb_true_iff, Z.eqb_eq, Z.leb_le, fexp_eq.
  change (emax - prec) with 971.
  pose proof (digits2_pos_bounds m) as Hd.
  set (d := Zpos (digits2_pos m)) in *.
  assert (0 < d) by (unfold d; lia).
  split.
  - intros [Hc He]. split; [lia|]. split.
    + apply Z.lt_le_trans with (2 ^ d); [lia|].
      apply pow2_le. lia.
    + intros Hn. replace 52 with (d - 1) by lia. lia.
  - intros (He & Hm & Hn). split; [|lia].
    assert (d <= 53).
    { destruct (Z.le_gt_cases d 53) as [|Hgt]; [assumption|].
      assert (2 ^ 53 <= 2 ^ (d - 1)) by (apply pow2_le; lia). lia. }
    destruct (Z.eq_dec e (-1074)) as [->|Hne]; [lia|].
    assert (53 <= d).
    { destruct (Z.le_gt_cases 53 d) as [|Hlt]; [assumption|].
      assert (2 ^ d <= 2 ^ 52) by (apply pow2_le; lia). lia. }
    lia.
Qed.

Lemma shr_fexp_spec (N D m e : Z) (l : location) :
  0 < D -> 0 <= m -> inbetween N D m l ->
  e <= fexp prec emax (Zdigits2 m + e) ->
  let mrs := fst (shr_fexp prec emax m e l) in
  let e1 := snd (shr_fexp prec emax m e l) in
  e1 = fexp prec emax (Zdigits2 m + e) /\
  -1074 <= e1 /\ e <= e1 /\
  0 <= shr_m mrs < 2 ^ 53 /\
  (-1074 < e1 -> 2 ^ 52 <= shr_m mrs) /\
  shr_m mrs = m / 2 ^ (e1 - e) /\
  inbetween N (D * 2 ^ (e1 - e)) (shr_m mrs) (loc_of_shr_record mrs).
Proof.
  intros HD Hm Hin Hpre. unfold shr_fexp.
  set (n := fexp prec emax (Zdigits2 m + e) - e).
  assert (0 <= n) as Hn by (unfold n; lia).
  destruct (shr_spec N D (shr_record_of_loc m l) e n HD) as (He1 & H0 & Hm1 & Hin1);
    rewrite ?shr_m_shr_record_of_loc, ?loc_of_shr_record_of_loc; auto.
  rewrite shr_m_shr_record_of_loc in Hm1.
  cbv zeta. rewrite He1.
  replace (e + n - e) with n by lia.
  assert (e + n = fexp prec emax (Zdigits2 m + e)) as Hfe by (unfold n; lia).
  rewrite fexp_eq in Hfe.
  pose proof (pow2_pos n Hn) as H2n.
  split; [unfold n; lia|]. split; [lia|]. split; [lia|].
  rewrite Hm1.
  destruct (Z.eq_dec m 0) as [->|Hm0].
  - rewrite Z.div_0_l by lia. change (Zdigits2 0) with 0 in Hfe.
    repeat split; try lia. rewrite Hm1, Z.div_0_l in Hin1 by lia. exact Hin1.
  - assert (0 < m) as Hpos by lia.
    pose proof (Zdigits2_bounds m Hpos) as Hd.
    pose proof (Zdigits2_pos m Hpos) as Hdpos.
    set (d := Zdigits2 m) in *.
    split; [split|split; [|split]].
    + apply Z.div_pos; lia.
    + apply Z.div_lt_upper_bound; [lia|].
      rewrite <- Z.pow_add_r by lia.
      apply Z.lt_le_trans with (2 ^ d); [lia|]. apply pow2_le. lia.
    + intros Hgt. apply Z.div_le_lower_bound; [lia|].
      rewrite <- Z.pow_add_r by lia.
      apply Z.le_trans with (2 ^ (d - 1)); [|lia]. apply pow2_le. lia.
    + reflexivity.
    + rewrite <- Hm1. exact Hin1.
Qed.

(** *** Rounding to nearest even *)

Lemma binary_round_aux_unfold (s : bool) (m e : Z) (l : location) :
  binary_round_aux prec emax s m e l =
  let mrs1 := fst (shr_fexp prec emax m e l) in
  let e1 := snd (shr_fexp prec emax m e l) in
  let r := shr_fexp prec emax
             (round_nearest_even (shr_m mrs1) (loc_of_shr_record mrs1)) e1 loc_Exact in
  match shr_m (fst r) with
  | Z0 => S754_zero s
  | Zpos p => if snd r <=? emax - prec then S754_finite s p (snd r) else S754_infinity s
  | Zneg _ => S754_nan
  end.
Proof.
  unfold binary_round_aux.
  destruct (shr_fexp prec emax m e l) as [mrs1 e1]. cbn [fst snd]. cbv zeta.
  destruct (shr_fexp prec emax _ e1 loc_Exact) as [mrs2 e2]. reflexivity.
Qed.

Lemma round_nearest_even_cases (N D m : Z) (l : location) :
  inbetween N D m l ->
  (round_nearest_even m l = m \/ round_nearest_even m l = m + 1) /\
  (l = loc_Exact -> round_nearest_even m l = m).
Proof.
  intros _. destruct l as [|[]]; simpl;
    (split; [try destruct (Z.even m); auto | try discriminate; auto]).
Qed.

Lemma pow2_split (a b : Z) : 0 <= a -> 0 <= b -> 2 ^ (a + b) = 2 ^ a * 2 ^ b.
Proof. intros. now apply Z.pow_add_r. Qed.

(** Rounding a fraction that lies in [[m, m + 1)] at exponent [e] aligns it
    to the exponent [e1] of its magnitude and returns a double whose value is
    one of the two neighbours of the fraction at that exponent. *)
Lemma binary_round_aux_rounded (s : bool) (N D m e : Z) (l : location) :
  0 < D -> 0 <= m -> inbetween N D m l ->
  e <= fexp prec emax (Zdigits2 m + e) ->
  exists m1 e1 l1,
    e1 = fexp prec emax (Zdigits2 m + e) /\
    -1074 <= e1 /\ e <= e1 /\
    0 <= m1 < 2 ^ 53 /\ (-1074 < e1 -> 2 ^ 52 <= m1) /\
    inbetween N (D * 2 ^ (e1 - e)) m1 l1 /\
    rounded s (ulps (round_nearest_even m1 l1) e1) (binary_round_aux prec emax s m e l).
Proof.
  intros HD Hm Hin Hpre.
  destruct (shr_fexp_spec N D m e l HD Hm Hin Hpre) as (He1 & Hemin & Hee & Hb & Hnorm & _ & Hin1).
  rewrite binary_round_aux_unfold. cbv zeta.
  set (mrs1 := fst (shr_fexp prec emax m e l)) in *.
  set (e1 := snd (shr_fexp prec emax m e l)) in *.
  set (m1 := shr_m mrs1) in *. set (l1 := loc_of_shr_record mrs1) in *.
  exists m1, e1, l1. repeat (split; [assumption || lia|]).
  destruct (round_nearest_even_cases _ _ _ _ Hin1) as [Hcases _].
  set (m2 := round_nearest_even m1 l1) in *.
  assert (0 <= m2 <= 2 ^ 53) as Hm2 by lia.
  assert (-1074 < e1 -> 2 ^ 52 <= m2) as Hnorm2 by lia.
  (* the second alignment *)
  assert (e1 <= fexp prec emax (Zdigits2 m2 + e1)) as Hpre2.
  { rewrite fexp_eq. destruct (Z.eq_dec m2 0) as [->|]; [change (Zdigits2 0) with 0; lia|].
    destruct (Z.eq_dec e1 (-1074)); [lia|].
    assert (Zdigits2 m2 >= 53); [|lia].
    destruct (Z_lt_le_dec (Zdigits2 m2) 53) as [Hlt|]; [|lia].
    pose proof (Zdigits2_bounds m2 ltac:(lia)).
    assert (2 ^ Zdigits2 m2 <= 2 ^ 52)
      by (apply pow2_le; pose proof (Zdigits2_pos m2 ltac:(lia)); lia).
    lia. }
  assert (inbetween m2 1 m2 loc_Exact) as Hex by (simpl; lia).
  destruct (shr_fexp_spec m2 1 m2 e1 loc_Exact ltac:(lia) ltac:(lia) Hex Hpre2)
    as (He2 & _ & Hee2 & Hb2 & Hnorm3 & Hm3 & _).
  set (r := shr_fexp prec emax m2 e1 loc_Exact) in *.
  set (e2 := snd r) in *. set (m3 := shr_m (fst r)) in *.
  change (emax - prec) with 971.
  (* the shift is by zero or by one binary digit *)
  assert ((e2 = e1 /\ m3 = m2) \/ (e2 = e1 + 1 /\ m2 = 2 ^ 53 /\ m3 = 2 ^ 52)) as Hshift.
  { rewrite fexp_eq in He2.
    destruct (Z.eq_dec m2 0) as [E|Hne].
    - left. rewrite E in He2, Hm3. change (Zdigits2 0) with 0 in He2.
      rewrite Z.div_0_l in Hm3 by (pose proof (pow2_pos (e2 - e1)); lia).
      assert (e1 = -1074) by lia. lia.
    - destruct (Z.eq_dec m2 (2 ^ 53)) as [E|Hne2].
      + right. rewrite E in He2, Hm3.
        rewrite (Zdigits2_unique (2 ^ 53) 54) in He2 by (simpl; lia).
        assert (e2 = e1 + 1) as -> by lia.
        replace (e1 + 1 - e1) with 1 in Hm3 by lia.
        repeat split; [assumption | exact Hm3].
      + left.
        pose proof (Zdigits2_bounds m2 ltac:(lia)) as Hd.
        pose proof (Zdigits2_pos m2 ltac:(lia)) as Hdp.
        assert (Zdigits2 m2 <= 53).
        { destruct (Z_le_gt_dec (Zdigits2 m2) 53); [assumption|].
          assert (2 ^ 53 <= 2 ^ (Zdigits2 m2 - 1)) by (apply pow2_le; lia). lia. }
        assert (-1074 < e1 -> 53 <= Zdigits2 m2).
        { intros Hgt. specialize (Hnorm2 Hgt).
          destruct (Z_le_gt_dec 53 (Zdigits2 m2)); [assumption|].
          assert (2 ^ Zdigits2 m2 <= 2 ^ 52) by (apply pow2_le; lia). lia. }
        assert (e2 = e1) as E by lia.
        rewrite E, Z.sub_diag, Z.div_1_r in Hm3. auto. }
  assert (ulps m3 e2 = ulps m2 e1) as Hval.
  { unfold ulps. destruct Hshift as [[-> ->]|(-> & -> & ->)]; [reflexivity|].
    replace (e1 + 1 + 1074) with (1 + (e1 + 1074)) by lia.
    rewrite pow2_split by lia. change (2 ^ 53) with (2 ^ 52 * 2 ^ 1). lia. }
  assert (0 <= m3 < 2 ^ 53) as Hm3b by lia.
  assert (-1074 < e2 -> 2 ^ 52 <= m3) as Hm3n by lia.
  destruct m3 as [|p|p] eqn:Em3; [| |lia].
  - apply rounded_zero. rewrite <- Hval. reflexivity.
  - destruct (e2 <=? 971) eqn:Ee; [apply Z.leb_le in Ee | apply Z.leb_gt in Ee].
    + apply rounded_finite; [|exact Hval].
      apply bounded_iff. repeat split; lia.
    + apply rounded_infinity. rewrite <- Hval. unfold ulps.
      apply Z.le_trans with (2 ^ 52 * 2 ^ (e2 + 1074)).
      * rewrite <- pow2_split by lia. apply pow2_le. lia.
      * apply Z.mul_le_mono_nonneg_r; [pose proof (pow2_pos (e2 + 1074)); lia | lia].
Qed.

(** *** Comparison follows the exact values *)

Lemma ulps_pos (m : positive) (e : Z) : -1074 <= e -> 0 < ulps (Zpos m) e.
Proof. intros. unfold ulps. pose proof (pow2_pos (e + 1074)). nia. Qed.

Lemma ulps_compare (m1 m2 : positive) (e1 e2 : Z) :
  bounded prec emax m1 e1 = true -> bounded prec emax m2 e2 = true ->
  (ulps (Zpos m1) e1 ?= ulps (Zpos m2) e2) =
  match e1 ?= e2 with
  | Lt => Lt
  | Gt => Gt
  | Eq => Pos.compare_cont Eq m1 m2
  end.
Proof.
  intros H1 H2. apply bounded_iff in H1, H2.
  destruct H1 as (He1 & Hm1 & Hn1), H2 as (He2 & Hm2 & Hn2).
  assert (forall ma mb ea eb, Zpos ma < 2 ^ 53 -> -1074 <= ea -> ea < eb ->
            2 ^ 52 <= Zpos mb -> ulps (Zpos ma) ea < ulps (Zpos mb) eb) as Hlt.
  { intros ma mb ea eb Ha Hea Hab Hb. unfold ulps.
    apply Z.lt_le_trans with (2 ^ 53 * 2 ^ (ea + 1074)).
    - apply Z.mul_lt_mono_pos_r; [apply pow2_pos; lia | assumption].
    - apply Z.le_trans with (2 ^ 52 * 2 ^ (eb + 1074)).
      + rewrite <- !pow2_split by lia. apply pow2_le. lia.
      + apply Z.mul_le_mono_nonneg_r; [pose proof (pow2_pos (eb + 1074)); lia | assumption]. }
  destruct (Z.compare_spec e1 e2) as [->|Hlt12|Hgt12].
  - unfold ulps. rewrite <- Zmult_compare_compat_r by (pose proof (pow2_pos (e2 + 1074)); lia).
    reflexivity.
  - apply Z.compare_lt_iff. apply Hlt; lia.
  - apply Z.compare_gt_iff. apply Hlt; lia.
Qed.

Lemma bounded_emin (m : positive) (e : Z) : bounded prec emax m e = true -> -1074 <= e.
Proof. intros H. apply bounded_iff in H. lia. Qed.

Lemma SFcompare_finite (x y : spec_float) :
  valid_binary x = true -> valid_binary y = true ->
  is_finite_SF x = true -> is_finite_SF y = true ->
  SFcompare x y = Some (SF2ulps x ?= SF2ulps y).
Proof.
  intros Vx Vy Fx Fy.
  destruct x as [sx| | |sx mx ex]; try discriminate;
    destruct y as [sy| | |sy my ey]; try discriminate; cbn [SFcompare SF2ulps].
  - reflexivity.
  - pose proof (ulps_pos my ey (bounded_emin _ _ Vy)).
    destruct sy; cbn [cond_Zopp]; f_equal; symmetry; cmp; lia.
  - pose proof (ulps_pos mx ex (bounded_emin _ _ Vx)).
    destruct sx; cbn [cond_Zopp]; f_equal; symmetry; cmp; lia.
  - pose proof (ulps_pos mx ex (bounded_emin _ _ Vx)).
    pose proof (ulps_pos my ey (bounded_emin _ _ Vy)).
    cbn [valid_binary] in Vx, Vy.
    destruct sx, sy; cbn [cond_Zopp]; f_equal.
    + rewrite Z.compare_opp, ulps_compare by assumption.
      rewrite (Z.compare_antisym ex ey), (ZC4 my mx).
      destruct (ex ?= ey); reflexivity.
    + symmetry; cmp; lia.
    + symmetry; cmp; lia.
    + now rewrite ulps_compare.
Qed.

(** *** Rounding is monotone against a double *)

Lemma inbetween_lower (N D m : Z) (l : location) :
  inbetween N D m l -> m * D <= N /\ (l <> loc_Exact -> m * D < N).
Proof.
  destruct l; simpl; intros H; split; try lia; congruence.
Qed.

(** A fraction that does not exceed a positive double is not rounded above
    it. *)
Lemma binary_round_aux_le (N D m e : Z) (l : location) (mf : positive) (ef : Z) :
  0 < D -> 0 <= m -> inbetween N D m l ->
  e <= fexp prec emax (Zdigits2 m + e) ->
  bounded prec emax mf ef = true ->
  frac_le_ulps N D e (ulps (Zpos mf) ef) ->
  SFleb (binary_round_aux prec emax false m e l) (S754_finite false mf ef) = true.
Proof.
  intros HD Hm Hin Hpre Hf (a & b & Ha & Hb & Hab & Hle).
  destruct (binary_round_aux_rounded false N D m e l HD Hm Hin Hpre)
    as (m1 & e1 & l1 & _ & Hemin & Hee & Hm1 & Hnorm & Hin1 & Hr).
  pose proof Hf as Hfb. apply bounded_iff in Hfb. destruct Hfb as (Hef & Hmf & Hnf).
  set (F := ulps (Zpos mf) ef) in *.
  set (u := 2 ^ (e1 + 1074)).
  set (D1 := D * 2 ^ (e1 - e)) in *.
  assert (0 < u) as Hu by (apply pow2_pos; lia).
  assert (0 < D1) as HD1 by (unfold D1; pose proof (pow2_pos (e1 - e)); nia).
  (* the hypothesis, at the exponent the rounding works at *)
  assert (N * u <= F * D1) as HNF.
  { assert (0 < 2 ^ b) as H2b by (apply pow2_pos; lia).
    apply Z.mul_le_mono_pos_r with (2 ^ b); [assumption|].
    replace (N * u * 2 ^ b) with (N * 2 ^ a * 2 ^ (e1 - e)).
    - replace (F * D1 * 2 ^ b) with (F * D * 2 ^ b * 2 ^ (e1 - e)) by (unfold D1; ring).
      apply Z.mul_le_mono_nonneg_r; [pose proof (pow2_pos (e1 - e)); lia | assumption].
    - unfold u. rewrite <- !Z.mul_assoc, <- !pow2_split by lia.
      do 2 f_equal. lia. }
  destruct (inbetween_lower _ _ _ _ Hin1) as [Hlow Hstrict].
  destruct (round_nearest_even_cases _ _ _ _ Hin1) as [Hcases Hexact].
  set (m2 := round_nearest_even m1 l1) in *.
  assert (ulps m2 e1 <= F) as HV.
  { unfold ulps. fold u.
    assert (m1 * u <= F) as H1 by nia.
    destruct Hcases as [E|E]; rewrite E; [assumption|].
    assert (l1 <> loc_Exact) as Hl1 by (intros El; specialize (Hexact El); lia).
    specialize (Hstrict Hl1).
    assert (m1 * u < F) as H2 by nia.
    destruct (Z_le_gt_dec e1 ef) as [Hge|Hlt].
    - assert (F = Zpos mf * 2 ^ (ef - e1) * u) as HF.
      { unfold F, ulps, u. rewrite <- Z.mul_assoc, <- pow2_split by lia.
        do 2 f_equal. lia. }
      set (k := Zpos mf * 2 ^ (ef - e1)) in HF.
      assert (m1 < k) by (apply Z.mul_lt_mono_pos_r with u; lia).
      rewrite HF. apply Z.mul_le_mono_nonneg_r; lia.
    - exfalso.
      assert (F < 2 ^ 52 * u); [|nia].
      unfold F, ulps, u.
      apply Z.lt_le_trans with (2 ^ 53 * 2 ^ (ef + 1074)).
      + apply Z.mul_lt_mono_pos_r; [apply pow2_pos; lia | assumption].
      + rewrite <- !pow2_split by lia. apply pow2_le. lia. }
  inversion Hr as [Hz | m3 e3 Hb3 Hv | Hinf]; subst.
  - reflexivity.
  - unfold SFleb. rewrite SFcompare_finite by (auto).
    cbn [SF2ulps cond_Zopp]. rewrite Hv. fold F.
    destruct (Z.compare_spec (ulps m2 e1) F); try reflexivity; lia.
  - exfalso.
    assert (F < 2 ^ (1024 + 1074)); [|lia].
    unfold F, ulps.
    apply Z.lt_le_trans with (2 ^ 53 * 2 ^ (ef + 1074)).
    + apply Z.mul_lt_mono_pos_r; [apply pow2_pos; lia | assumption].
    + rewrite <- !pow2_split by lia. apply pow2_le. lia.
Qed.

(** *** Division and multiplication *)

Lemma Zdigits2_ge (m k : Z) : 0 <= k -> 2 ^ k <= m -> k + 1 <= Zdigits2 m.
Proof.
  intros Hk Hm. pose proof (pow2_pos k Hk).
  pose proof (Zdigits2_bounds m ltac:(lia)) as Hd.
  pose proof (Zdigits2_pos m ltac:(lia)) as Hp.
  destruct (Z_le_gt_dec (k + 1) (Zdigits2 m)); [assumption|].
  assert (2 ^ Zdigits2 m <= 2 ^ k) by (apply pow2_le; lia). lia.
Qed.

Lemma Zdigits2_le (m k : Z) : 0 < m -> 0 <= k -> m < 2 ^ k -> Zdigits2 m <= k.
Proof.
  intros Hm Hk Hlt.
  pose proof (Zdigits2_bounds m Hm) as Hd.
  pose proof (Zdigits2_pos m Hm) as Hp.
  destruct (Z_le_gt_dec (Zdigits2 m) k); [assumption|].
  assert (2 ^ k <= 2 ^ (Zdigits2 m - 1)) by (apply pow2_le; lia). lia.
Qed.

Lemma new_location_inbetween (N D q r : Z) :
  0 < D -> 0 <= r < D -> N = q * D + r -> inbetween N D q (new_location D r).
Proof.
  intros HD Hr ->. unfold new_location.
  destruct (Z.even D) eqn:Ev.
  - unfold new_location_even. destruct (Z.eqb_spec r 0) as [->|Hne]; cbn [inbetween]; [lia|].
    split; [lia|].
    destruct (Z.compare_spec (2 * r) D); cmp; lia.
  - unfold new_location_odd. destruct (Z.eqb_spec r 0) as [->|Hne]; cbn [inbetween]; [lia|].
    split; [lia|].
    assert (Z.odd D = true) as Hodd by (rewrite <- Z.negb_even, Ev; reflexivity).
    apply Z.odd_spec in Hodd. destruct Hodd as [k Hk].
    destruct (Z.compare_spec (2 * r + 1) D); cmp; lia.
Qed.

Lemma SFdiv_core_binary_spec (mx my : positive) (ex ey q e' : Z) (l : location) :
  SFdiv_core_binary prec emax (Zpos mx) ex (Zpos my) ey = (q, e', l) ->
  0 <= ex - ey - e' /\ 0 <= q /\
  inbetween (Zpos mx * 2 ^ (ex - ey - e')) (Zpos my) q l /\
  e' <= fexp prec emax (Zdigits2 q + e').
Proof.
  unfold SFdiv_core_binary.
  set (d1 := Zdigits2 (Zpos mx)). set (d2 := Zdigits2 (Zpos my)).
  set (e0 := Z.min (fexp prec emax (d1 + ex - (d2 + ey))) (ex - ey)).
  set (s := ex - ey - e0).
  assert (0 <= s) as Hs by (unfold s, e0; lia).
  set (m' := match s with Zpos _ => Z.shiftl (Zpos mx) s | Z0 => Zpos mx | Zneg _ => 0 end).
  assert (m' = Zpos mx * 2 ^ s) as Hm'.
  { unfold m'. destruct s as [|p|p]; [simpl; lia | | lia].
    now rewrite Z.shiftl_mul_pow2 by lia. }
  pose proof (Z_div_mod m' (Zpos my) ltac:(lia)) as Hdiv.
  destruct (Z.div_eucl m' (Zpos my)) as [q0 r0]. destruct Hdiv as [Hdiv Hr].
  intros E. injection E as <- <- <-.
  pose proof (pow2_pos s Hs) as H2s.
  assert (0 <= q0) as Hq by nia.
  split; [exact Hs|]. split; [exact Hq|]. split.
  - fold s. rewrite <- Hm'. apply new_location_inbetween; lia.
  - rewrite fexp_eq. destruct (Z_le_gt_dec e0 (-1074)) as [|Hgt]; [lia|].
    assert (53 <= Zdigits2 q0); [|lia].
    apply (Zdigits2_ge q0 52); [lia|].
    pose proof (Zdigits2_bounds (Zpos mx) ltac:(lia)) as Hd1.
    pose proof (Zdigits2_bounds (Zpos my) ltac:(lia)) as Hd2.
    pose proof (Zdigits2_pos (Zpos mx) ltac:(lia)) as Hp1.
    pose proof (Zdigits2_pos (Zpos my) ltac:(lia)) as Hp2.
    fold d1 in Hd1, Hp1. fold d2 in Hd2, Hp2.
    assert (d2 + 52 <= d1 - 1 + s) as Hexp.
    { unfold s. unfold e0 in *. rewrite fexp_eq in *. lia. }
    assert (Zpos my * 2 ^ 52 <= m').
    { rewrite Hm'.
      apply Z.le_trans with (2 ^ d2 * 2 ^ 52); [nia|].
      apply Z.le_trans with (2 ^ (d1 - 1) * 2 ^ s); [|nia].
      rewrite <- !pow2_split by lia. apply pow2_le. lia. }
    (* q0 >= 2^52 *)
    destruct (Z_le_gt_dec (2 ^ 52) q0); [assumption|].
    exfalso. nia.
Qed.

(** A quotient that does not exceed a double is not rounded above it. *)
Lemma SFdiv_finite_le (mx my mf : positive) (ex ey ef : Z) :
  bounded prec emax mx ex = true -> bounded prec emax my ey = true ->
  bounded prec emax mf ef = true ->
  ulps (Zpos mx) ex * 2 ^ 1074 <= ulps (Zpos mf) ef * ulps (Zpos my) ey ->
  SFleb (SF64div (S754_finite false mx ex) (S754_finite false my ey))
        (S754_finite false mf ef) = true.
Proof.
  intros Hx Hy Hf Hle. unfold SF64div, SFdiv.
  destruct (SFdiv_core_binary prec emax (Zpos mx) ex (Zpos my) ey) as [[q e'] l] eqn:Hcore.
  apply SFdiv_core_binary_spec in Hcore. destruct Hcore as (Hs & Hq & Hin & Hpre).
  cbn [xorb].
  apply (binary_round_aux_le (Zpos mx * 2 ^ (ex - ey - e')) (Zpos my));
    [lia | assumption | assumption | assumption | assumption |].
  apply bounded_iff in Hx, Hy.
  set (s := ex - ey - e') in *.
  exists (ex + 2148), (ey + 1074 + s). repeat split; try lia.
  set (F := ulps (Zpos mf) ef) in *. unfold ulps in Hle.
  pose proof (pow2_pos s Hs).
  replace (Zpos mx * 2 ^ s * 2 ^ (ex + 2148))
    with (Zpos mx * 2 ^ (ex + 1074) * 2 ^ 1074 * 2 ^ s).
  - replace (F * Zpos my * 2 ^ (ey + 1074 + s))
      with (F * (Zpos my * 2 ^ (ey + 1074)) * 2 ^ s).
    + apply Z.mul_le_mono_nonneg_r; lia.
    + rewrite (pow2_split (ey + 1074) s) by lia. ring.
  - replace (ex + 2148) with (ex + 1074 + 1074) by lia.
    rewrite (pow2_split (ex + 1074) 1074) by lia. ring.
Qed.

(** A product that does not exceed a double is not rounded above it. *)
Lemma SFmul_finite_le (mx my mf : positive) (ex ey ef : Z) :
  bounded prec emax mx ex = true -> bounded prec emax my ey = true ->
  bounded prec emax mf ef = true ->
  ulps (Zpos mx) ex * ulps (Zpos my) ey <= ulps (Zpos mf) ef * 2 ^ 1074 ->
  SFleb (SF64mul (S754_finite false mx ex) (S754_finite false my ey))
        (S754_finite false mf ef) = true.
Proof.
  intros Hx Hy Hf Hle. unfold SF64mul, SFmul. cbn [xorb].
  apply bounded_iff in Hx, Hy. destruct Hx as (Hex & Hmx & Hnx), Hy as (Hey & Hmy & Hny).
  apply (binary_round_aux_le (Zpos (mx * my)) 1); try lia; try assumption.
  - simpl. lia.
  - rewrite fexp_eq. destruct (Z_le_gt_dec (ex + ey) (-1074)); [lia|].
    assert (53 <= Zdigits2 (Zpos (mx * my))); [|lia].
    apply (Zdigits2_ge _ 52); [lia|]. rewrite Pos2Z.inj_mul.
    assert (2 ^ 52 <= Zpos mx \/ 2 ^ 52 <= Zpos my) as [H|H] by lia; nia.
  - exists (ex + ey + 2148), 1074. repeat split; try lia.
    unfold ulps in *. rewrite Pos2Z.inj_mul.
    replace (ex + ey + 2148) with ((ex + 1074) + (ey + 1074)) by lia.
    rewrite pow2_split by lia. lia.
Qed.

(** *** Exact results *)

(** Rounding what fits is exact. *)
Lemma binary_round_aux_exact (s : bool) (m e : Z) :
  0 <= m ->
  let e1 := fexp prec emax (Zdigits2 m + e) in
  e <= e1 ->
  m mod 2 ^ (e1 - e) = 0 ->
  rounded s (ulps (m / 2 ^ (e1 - e)) e1) (binary_round_aux prec emax s m e loc_Exact).
Proof.
  intros Hm e1 Hpre Hmod.
  assert (inbetween m 1 m loc_Exact) as Hin by (simpl; lia).
  destruct (binary_round_aux_rounded s m 1 m e loc_Exact ltac:(lia) Hm Hin Hpre)
    as (m1 & e1' & l1 & He1 & _ & _ & _ & _ & Hin1 & Hr).
  fold e1 in He1. subst e1'.
  pose proof (pow2_pos (e1 - e) ltac:(lia)) as Hp.
  set (P := 2 ^ (e1 - e)) in *.
  rewrite Z.mul_1_l in Hin1.
  assert (m = P * (m / P)) as Hdiv by (pose proof (Z.div_mod m P); lia).
  destruct (round_nearest_even_cases _ _ _ _ Hin1) as [_ Hexact].
  assert (l1 = loc_Exact /\ m1 = m / P) as [-> ->].
  { destruct l1 as [|c]; cbn [inbetween] in Hin1.
    - split; [reflexivity|]. apply Z.mul_cancel_r with P; lia.
    - exfalso. destruct Hin1 as [[Hlo Hhi] _].
      assert (m1 < m / P) by (apply Z.mul_lt_mono_pos_r with P; lia).
      assert (m / P < m1 + 1) by (apply Z.mul_lt_mono_pos_r with P; lia).
      lia. }
  rewrite Hexact in Hr by reflexivity. exact Hr.
Qed.

Lemma Zdigits2_mul_pow2 (m k : Z) :
  0 < m -> 0 <= k -> Zdigits2 (m * 2 ^ k) = Zdigits2 m + k.
Proof.
  intros Hm Hk. pose proof (pow2_pos k Hk).
  rewrite !Zdigits2_log2 by nia.
  rewrite Z.log2_mul_pow2 by lia. lia.
Qed.

Lemma shl_align_spec (mx : positive) (ex ex' : Z) :
  snd (shl_align mx ex ex') = Z.min ex ex' /\
  Zpos (fst (shl_align mx ex ex')) = Zpos mx * 2 ^ (ex - Z.min ex ex').
Proof.
  unfold shl_align. destruct (ex' - ex) as [|d|d] eqn:E; cbn [fst snd].
  - replace (Z.min ex ex') with ex by lia. rewrite Z.sub_diag. simpl. lia.
  - replace (Z.min ex ex') with ex by lia. rewrite Z.sub_diag. simpl. lia.
  - replace (Z.min ex ex') with ex' by lia. split; [reflexivity|].
    replace (ex - ex') with (Zpos d) by lia.
    apply (Pos.iter_ind _ xO mx (fun p a => Zpos a = Zpos mx * 2 ^ Zpos p)).
    + rewrite Z.pow_1_r. lia.
    + intros p a IH. rewrite Pos2Z.inj_succ, Z.pow_succ_r by lia.
      rewrite Pos2Z.inj_xO, IH. ring.
Qed.

Lemma binary_round_exact (s : bool) (mx : positive) (ex : Z) :
  -1074 <= ex -> Zpos mx < 2 ^ 53 ->
  rounded s (ulps (Zpos mx) ex) (binary_round prec emax s mx ex).
Proof.
  intros Hex Hmx. unfold binary_round.
  pose proof (shl_align_spec mx ex (fexp prec emax (Zpos (digits2_pos mx) + ex))) as [Hez Hmz].
  destruct (shl_align mx ex _) as [mz ez]. cbn [fst snd] in Hez, Hmz.
  change (Zpos (digits2_pos mx)) with (Zdigits2 (Zpos mx)) in Hez, Hmz.
  pose proof (Zdigits2_le (Zpos mx) 53 ltac:(lia) ltac:(lia) Hmx) as Hd.
  pose proof (Zdigits2_pos (Zpos mx) ltac:(lia)) as Hdp.
  assert (ez = fexp prec emax (Zdigits2 (Zpos mx) + ex)) as Hez'
      by (rewrite fexp_eq in *; lia).
  rewrite <- Hez' in Hmz. clear Hez.
  assert (ez <= ex) as Hle by (rewrite fexp_eq in Hez'; lia).
  replace (Z.min ex ez) with ez in Hmz by lia.
  assert (fexp prec emax (Zdigits2 (Zpos mz) + ez) = ez) as Hfix.
  { rewrite Hmz, Zdigits2_mul_pow2 by lia.
    replace (Zdigits2 (Zpos mx) + (ex - ez) + ez) with (Zdigits2 (Zpos mx) + ex) by lia.
    symmetry. exact Hez'. }
  pose proof (binary_round_aux_exact s (Zpos mz) ez ltac:(lia)) as H.
  cbv zeta in H. rewrite Hfix, Z.sub_diag in H.
  specialize (H ltac:(lia) ltac:(apply Z.mod_1_r)).
  rewrite Z.div_1_r in H.
  replace (ulps (Zpos mx) ex) with (ulps (Zpos mz) ez); [exact H|].
  unfold ulps. rewrite Hmz, <- Z.mul_assoc, <- pow2_split by (rewrite fexp_eq in Hez'; lia).
  do 2 f_equal. lia.
Qed.


Lemma binary_normalize_exact (z : Z) (s : bool) :
  - 2 ^ 53 < z < 2 ^ 53 ->
  valid_binary (binary_normalize prec emax z 0 s) = true /\
  is_finite_SF (binary_normalize prec emax z 0 s) = true /\
  SF2ulps (binary_normalize prec emax z 0 s) = z * 2 ^ 1074 /\
  (z = 0 -> binary_normalize prec emax z 0 s = S754_zero s).
Proof.
  intros Hz. destruct z as [|p|p]; cbn [binary_normalize].
  - repeat split.
  - pose proof (binary_round_exact false p 0 ltac:(lia) ltac:(lia)) as H.
    inversion H as [Hz0 | m e Hb Hv | Hinf].
    + idtac. exfalso. unfold ulps in Hz0.
      pose proof (pow2_pos (0 + 1074)). nia.
    + repeat split; try assumption; try lia.
    + exfalso. unfold ulps in Hinf.
      assert (Zpos p * 2 ^ (0 + 1074) < 2 ^ 53 * 2 ^ 1074)
        by (apply Z.mul_lt_mono_pos_r; [apply pow2_pos|]; lia).
      rewrite <- pow2_split in H1 by lia.
      assert (2 ^ (53 + 1074) <= 2 ^ (1024 + 1074)) by (apply pow2_le; lia). lia.
  - pose proof (binary_round_exact true p 0 ltac:(lia) ltac:(lia)) as H.
    inversion H as [Hz0 | m e Hb Hv | Hinf].
    + idtac. exfalso. unfold ulps in Hz0.
      pose proof (pow2_pos (0 + 1074)). nia.
    + repeat split; try assumption; try lia.
      all: cbn [SF2ulps cond_Zopp]; rewrite Hv; unfold ulps; simpl (0 + 1074); lia.
    + exfalso. unfold ulps in Hinf.
      assert (Zpos p * 2 ^ (0 + 1074) < 2 ^ 53 * 2 ^ 1074)
        by (apply Z.mul_lt_mono_pos_r; [apply pow2_pos|]; lia).
      rewrite <- pow2_split in H1 by lia.
      assert (2 ^ (53 + 1074) <= 2 ^ (1024 + 1074)) by (apply pow2_le; lia). lia.
Qed.

(** *** Conversions between [int] and [double] *)

Lemma is_int_bounds (z : Z) : is_int z = true <-> - 2 ^ 31 <= z <= 2 ^ 31 - 1.
Proof.
  unfold is_int, INT_MIN, INT_MAX.
  rewrite Bool.andb_true_iff, !Z.leb_le. reflexivity.
Qed.

Lemma double_of_int_spec (z : Z) :
  is_int z = true ->
  valid_binary (double_of_int z) = true /\
  is_finite_SF (double_of_int z) = true /\
  SF2ulps (double_of_int z) = z * 2 ^ 1074.
Proof.
  intros Hz. apply is_int_bounds in Hz.
  destruct (binary_normalize_exact z false) as (Hv & Hf & Hu & _); [|auto].
  change (2 ^ 31) with 2147483648 in Hz. change (2 ^ 53) with 9007199254740992. lia.
Qed.

Lemma SF2ulps_sign (x : spec_float) :
  valid_binary x = true ->
  match x with
  | S754_finite false _ _ => 0 < SF2ulps x
  | S754_finite true _ _ => SF2ulps x < 0
  | _ => SF2ulps x = 0
  end.
Proof.
  destruct x as [| | |s m e]; try reflexivity. cbn [valid_binary SF2ulps].
  intros Hb. pose proof (ulps_pos m e (bounded_emin _ _ Hb)).
  destruct s; cbn [cond_Zopp]; lia.
Qed.

Lemma double_of_int_pos (z : Z) :
  is_int z = true -> 0 < z ->
  exists m e, double_of_int z = S754_finite false m e /\
              bounded prec emax m e = true /\ ulps (Zpos m) e = z * 2 ^ 1074.
Proof.
  intros Hi Hz. destruct (double_of_int_spec z Hi) as (Hv & Hf & Hu).
  pose proof (SF2ulps_sign _ Hv) as Hs.
  pose proof (pow2_pos 1074 ltac:(lia)) as Hp.
  destruct (double_of_int z) as [| | |s m e]; try discriminate; try nia.
  destruct s; [nia|].
  exists m, e. repeat split; assumption.
Qed.

Lemma double_of_int_0 : double_of_int 0 = S754_zero false.
Proof. reflexivity. Qed.

(** Truncation is the quotient of the value by one, rounded toward zero. *)
Lemma double_truncate_spec (x : spec_float) :
  valid_binary x = true -> is_finite_SF x = true ->
  double_truncate x = Some (Z.quot (SF2ulps x) (2 ^ 1074)).
Proof.
  intros Hv Hf. destruct x as [s| | |s m e]; try discriminate.
  - reflexivity.
  - cbn [double_truncate SF2ulps]. f_equal.
    cbn [valid_binary] in Hv. apply bounded_iff in Hv. destruct Hv as (He & _).
    assert (Z.shiftl (Zpos m) e = ulps (Zpos m) e / 2 ^ 1074) as Hsh.
    { unfold ulps. destruct (Z_le_gt_dec 0 e) as [Hpos|Hneg].
      - rewrite Z.shiftl_mul_pow2, pow2_split, Z.mul_assoc by lia.
        rewrite Z.div_mul by (pose proof (pow2_pos 1074); lia). reflexivity.
      - rewrite Z.shiftl_div_pow2 by lia.
        replace (2 ^ 1074) with (2 ^ (- e) * 2 ^ (e + 1074))
          by (rewrite <- pow2_split by lia; f_equal; lia).
        rewrite Z.div_mul_cancel_r;
          [reflexivity | pose proof (pow2_pos (- e)); lia
                       | pose proof (pow2_pos (e + 1074)); lia]. }
    pose proof (ulps_pos m e ltac:(lia)) as Hu.
    pose proof (pow2_pos 1074 ltac:(lia)) as Hp.
    destruct s; cbn [cond_Zopp].
    + rewrite Z.quot_opp_l by lia. f_equal.
      rewrite Z.quot_div_nonneg by lia. exact Hsh.
    + rewrite Z.quot_div_nonneg by lia. exact Hsh.
Qed.

Lemma double_truncate_integral (x : spec_float) (n : Z) :
  valid_binary x = true -> is_finite_SF x = true ->
  SF2ulps x = n * 2 ^ 1074 ->
  double_truncate x = Some n.
Proof.
  intros Hv Hf Hu. rewrite double_truncate_spec, Hu by assumption.
  rewrite Z.quot_mul by (pose proof (pow2_pos 1074); lia). reflexivity.
Qed.

Lemma int_of_double_of_int (z : Z) :
  is_int z = true -> int_of_double (double_of_int z) = Some z.
Proof.
  intros Hz. destruct (double_of_int_spec z Hz) as (Hv & Hf & Hu).
  unfold int_of_double. rewrite (double_truncate_integral _ z) by assumption.
  now rewrite Hz.
Qed.

(** A well-formed double that compares greater than zero. *)
Lemma dgt_d0_cases (a : double) :
  valid_binary a = true -> dgt a d0 = true ->
  a = S754_infinity false \/
  exists m e, a = S754_finite false m e /\ bounded prec emax m e = true.
Proof.
  intros Hv Hgt. destruct a as [s|s| |s m e]; try discriminate.
  - destruct s; [discriminate | now left].
  - destruct s; [discriminate|]. right. now exists m, e.
Qed.

Lemma SFdiv_finite_rounded (mx my : positive) (ex ey : Z) :
  exists v,
    rounded false v (SF64div (S754_finite false mx ex) (S754_finite false my ey)).
Proof.
  unfold SF64div, SFdiv.
  destruct (SFdiv_core_binary prec emax (Zpos mx) ex (Zpos my) ey) as [[q e'] l] eqn:Hcore.
  apply SFdiv_core_binary_spec in Hcore. destruct Hcore as (Hs & Hq & Hin & Hpre).
  cbn [xorb].
  destruct (binary_round_aux_rounded false _ (Zpos my) q e' l ltac:(lia) Hq Hin Hpre)
    as (m1 & e1 & l1 & _ & _ & _ & _ & _ & _ & Hr).
  eexists. exact Hr.
Qed.

Lemma rounded_valid (s : bool) (v : Z) (r : spec_float) :
  rounded s v r -> valid_binary r = true /\ r <> S754_nan.
Proof. intros H. inversion H; subst; cbn [valid_binary]; split; auto; discriminate. Qed.

(** *** The two branches of the fit *)

Lemma dle_SFleb (x y : double) : dle x y = SFleb x y.
Proof. reflexivity. Qed.

Lemma dgt_not_dle (x y : double) : dgt x y = true -> dle x y = false.
Proof. unfold dgt, dle. destruct (SFcompare x y) as [[]|]; congruence. Qed.

Lemma double_of_int_nonneg_cases (z : Z) :
  is_int z = true -> 0 <= z ->
  (z = 0 /\ double_of_int z = S754_zero false) \/
  (0 < z /\ exists m e, double_of_int z = S754_finite false m e /\
                        bounded prec emax m e = true /\ ulps (Zpos m) e = z * 2 ^ 1074).
Proof.
  intros Hi Hz. destruct (Z.eq_dec z 0) as [->|Hne].
  - left. split; reflexivity.
  - right. split; [lia|]. apply double_of_int_pos; [assumption | lia].
Qed.

Lemma ddiv_of_int_rounded (W : Z) (a : double) :
  is_int W = true -> 0 <= W -> valid_binary a = true -> dgt a d0 = true ->
  exists v, rounded false v (ddiv (double_of_int W) a).
Proof.
  intros HiW HW Hv Ha.
  destruct (double_of_int_nonneg_cases W HiW HW) as [[-> EW]|[HWpos (mW & eW & EW & HbW & HuW)]];
    rewrite EW;
    destruct (dgt_d0_cases a Hv Ha) as [->|(ma & ea & -> & Hba)].
  - exists 0. now apply rounded_zero.
  - exists 0. now apply rounded_zero.
  - exists 0. now apply rounded_zero.
  - apply SFdiv_finite_rounded.
Qed.

(** In the branch that scales to the widget height, the scaled width does
    not exceed the widget width, rounding included. *)
Lemma fit_within_width (W H : Z) (a : double) :
  is_int W = true -> is_int H = true -> 0 <= W -> 0 <= H ->
  valid_binary a = true -> dgt a d0 = true ->
  dgt (ddiv (double_of_int W) a) (double_of_int H) = true ->
  dle (dmul (double_of_int H) a) (double_of_int W) = true.
Proof.
  intros HiW HiH HW HH Hv Ha Hgt.
  destruct (double_of_int_nonneg_cases W HiW HW) as [[-> EW]|[HWpos (mW & eW & EW & HbW & HuW)]];
    destruct (double_of_int_nonneg_cases H HiH HH) as [[-> EH]|[HHpos (mH & eH & EH & HbH & HuH)]];
    rewrite ?EW, ?EH in *;
    destruct (dgt_d0_cases a Hv Ha) as [->|(ma & ea & -> & Hba)];
    try discriminate Hgt; try reflexivity.
  apply dgt_not_dle in Hgt. rewrite dle_SFleb in *.
  destruct (Z_le_gt_dec (ulps (Zpos mW) eW * 2 ^ 1074) (ulps (Zpos mH) eH * ulps (Zpos ma) ea))
    as [Hle|Hlt].
  - unfold ddiv in Hgt. rewrite SFdiv_finite_le in Hgt by assumption. discriminate.
  - apply SFmul_finite_le; try assumption. lia.
Qed.

(** In the branch that keeps the widget width, the scaled height does not
    exceed the widget height: the quotient is never a NaN. *)
Lemma fit_within_height (W H : Z) (a : double) :
  is_int W = true -> is_int H = true -> 0 <= W -> 0 <= H ->
  valid_binary a = true -> dgt a d0 = true ->
  dgt (ddiv (double_of_int W) a) (double_of_int H) = false ->
  dle (ddiv (double_of_int W) a) (double_of_int H) = true.
Proof.
  intros HiW HiH HW HH Hv Ha Hgt.
  destruct (double_of_int_spec H HiH) as (HvH & HfH & HuH).
  assert (exists v, rounded false v (ddiv (double_of_int W) a)) as [v Hr].
  { destruct (double_of_int_nonneg_cases W HiW HW) as [[-> EW]|[HWpos (mW & eW & EW & HbW & HuW)]];
      rewrite EW;
      destruct (dgt_d0_cases a Hv Ha) as [->|(ma & ea & -> & Hba)].
    - exists 0. now apply rounded_zero.
    - exists 0. now apply rounded_zero.
    - exists 0. now apply rounded_zero.
    - apply SFdiv_finite_rounded. }
  remember (ddiv (double_of_int W) a) as q eqn:Eq. clear Eq.
  unfold dgt in Hgt. unfold dle.
  destruct Hr as [Hz | m e Hb Hu | Hinf].
  - rewrite SFcompare_finite in * by auto.
    destruct (SF2ulps (S754_zero false) ?= SF2ulps (double_of_int H)); congruence.
  - rewrite SFcompare_finite in * by auto.
    destruct (SF2ulps (S754_finite false m e) ?= SF2ulps (double_of_int H)); congruence.
  - exfalso.
    destruct (double_of_int H) as [| | |]; try discriminate; simpl in Hgt; discriminate.
Qed.

(** *** Ceiling and minimum *)

Lemma Zceil_div_scaled (m P Q : Z) :
  0 < P -> 0 < Q -> - ((- (m * Q)) / (P * Q)) = (m + P - 1) / P.
Proof.
  intros HP HQ.
  rewrite <- Z.mul_opp_l, Z.div_mul_cancel_r by lia.
  set (c := (m + P - 1) / P).
  pose proof (Z.div_mod (m + P - 1) P ltac:(lia)) as Hdm.
  pose proof (Z.mod_pos_bound (m + P - 1) P HP) as Hmod.
  fold c in Hdm.
  assert (- c = - m / P); [|lia].
  apply (Z.div_unique (- m) P (- c) (P * c - m)); lia.
Qed.

Lemma ceil_finite_spec (m : positive) (e : Z) :
  bounded prec emax m e = true ->
  exists n,
    double_ceiling (S754_finite false m e) = Some n /\ 1 <= n /\
    valid_binary (ceil (S754_finite false m e)) = true /\
    is_finite_SF (ceil (S754_finite false m e)) = true /\
    SF2ulps (ceil (S754_finite false m e)) = n * 2 ^ 1074.
Proof.
  intros Hb. pose proof Hb as Hb'. apply bounded_iff in Hb'. destruct Hb' as (He & Hm & _).
  cbn [double_ceiling SF2ulps cond_Zopp ceil]. unfold ulps.
  destruct (Z.leb_spec 0 e) as [Hpos|Hneg].
  - exists (Zpos m * 2 ^ e).
    replace (Zpos m * 2 ^ (e + 1074)) with (Zpos m * 2 ^ e * 2 ^ 1074)
      by (rewrite pow2_split by lia; ring).
    split; [|split; [|split; [|split]]].
    + rewrite <- Z.mul_opp_l, Z.div_mul by (pose proof (pow2_pos 1074); lia).
      f_equal. lia.
    + pose proof (pow2_pos e Hpos). nia.
    + exact Hb.
    + reflexivity.
    + cbn [SF2ulps cond_Zopp]. unfold ulps. rewrite pow2_split by lia. ring.
  - set (k := - e). assert (1 <= k <= 1074) as Hk by (unfold k; lia).
    pose proof (pow2_pos k ltac:(lia)) as HP.
    pose proof (pow2_pos (e + 1074) ltac:(lia)) as HQ.
    set (n := Z.shiftr (Zpos m + (2 ^ k - 1)) k).
    assert (n = (Zpos m + 2 ^ k - 1) / 2 ^ k) as Hn.
    { unfold n. rewrite Z.shiftr_div_pow2 by lia. f_equal. lia. }
    assert (2 <= 2 ^ k) as HP2.
    { change 2 with (2 ^ 1) at 1. apply pow2_le. lia. }
    assert (1 <= n <= 2 ^ 52) as Hnb.
    { rewrite Hn. split.
      - apply Z.div_le_lower_bound; lia.
      - assert ((Zpos m + 2 ^ k - 1) / 2 ^ k < 2 ^ 52 + 1); [|lia].
        apply Z.div_lt_upper_bound; [lia|].
        change (2 ^ 53) with (2 * 2 ^ 52) in Hm. nia. }
    exists n.
    destruct (binary_normalize_exact n false) as (Hv & Hf & Hu & _).
    { change (2 ^ 53) with (2 * 2 ^ 52). lia. }
    split; [|split; [lia | split; [assumption | split; [assumption | assumption]]]].
    f_equal. rewrite Hn.
    replace (2 ^ 1074) with (2 ^ k * 2 ^ (e + 1074))
      by (rewrite <- pow2_split by lia; f_equal; unfold k; lia).
    apply Zceil_div_scaled; lia.
Qed.

Lemma dlt_of_int_integral (h n : Z) (c : double) :
  is_int h = true ->
  valid_binary c = true -> is_finite_SF c = true -> SF2ulps c = n * 2 ^ 1074 ->
  dlt (double_of_int h) c = (h <? n).
Proof.
  intros Hh Hv Hf Hu. destruct (double_of_int_spec h Hh) as (Hvh & Hfh & Huh).
  unfold dlt. rewrite SFcompare_finite, Huh, Hu by assumption.
  rewrite <- Zmult_compare_compat_r by (pose proof (pow2_pos 1074); lia).
  unfold Z.ltb. destruct (h ?= n); reflexivity.
Qed.

(** What [measure] stores for a quotient [q] that is not negative: the
    smaller of the intrinsic height and the ceiling of [q]. *)
Lemma int_of_MIN_ceil (h v : Z) (q : double) :
  is_int h = true -> rounded false v q ->
  int_of_double (MIN (double_of_int h) (ceil q)) =
  Some match double_ceiling q with
       | Some n => Z.min h n
       | None => h
       end.
Proof.
  intros Hh Hr. pose proof Hh as Hh'. apply is_int_bounds in Hh'.
  destruct Hr as [Hz | m e Hb Hu | Hinf]; unfold MIN.
  - cbn [ceil double_ceiling].
    rewrite (dlt_of_int_integral h 0) by (auto; reflexivity).
    destruct (Z.ltb_spec h 0).
    + rewrite int_of_double_of_int by assumption. f_equal. lia.
    + cbn. f_equal. lia.
  - destruct (ceil_finite_spec m e Hb) as (n & Hc & Hn & Hv & Hf & Hus).
    rewrite Hc, (dlt_of_int_integral h n) by assumption.
    destruct (Z.ltb_spec h n).
    + rewrite int_of_double_of_int by assumption. f_equal. lia.
    + unfold int_of_double. rewrite (double_truncate_integral _ n) by assumption.
      assert (is_int n = true) as -> by (apply is_int_bounds; lia).
      f_equal. lia.
  - cbn [ceil double_ceiling].
    destruct (double_of_int_spec h Hh) as (Hvh & Hfh & _).
    assert (dlt (double_of_int h) (S754_infinity false) = true) as ->.
    { unfold dlt. destruct (double_of_int h) as [| | |[]]; try discriminate; reflexivity. }
    now rewrite int_of_double_of_int.
Qed.

(** *** A double is determined by its value *)

Lemma ulps_inj (m1 m2 : positive) (e1 e2 : Z) :
  bounded prec emax m1 e1 = true -> bounded prec emax m2 e2 = true ->
  ulps (Zpos m1) e1 = ulps (Zpos m2) e2 -> m1 = m2 /\ e1 = e2.
Proof.
  intros H1 H2 Hu. pose proof (ulps_compare m1 m2 e1 e2 H1 H2) as Hc.
  rewrite Hu, Z.compare_refl in Hc.
  destruct (Z.compare_spec e1 e2) as [->| |]; try discriminate.
  split; [|reflexivity]. apply Pos.compare_eq. symmetry. exact Hc.
Qed.

Lemma SF2ulps_inj (x y : spec_float) :
  valid_binary x = true -> valid_binary y = true ->
  is_finite_SF x = true -> is_finite_SF y = true ->
  SF2ulps x = SF2ulps y -> SF2ulps x <> 0 -> x = y.
Proof.
  intros Vx Vy Fx Fy Hu Hne.
  pose proof (SF2ulps_sign x Vx) as Sx. pose proof (SF2ulps_sign y Vy) as Sy.
  destruct x as [sx| | |sx mx ex]; try discriminate; [now elim Hne|].
  destruct y as [sy| | |sy my ey]; try discriminate; [congruence|].
  cbn [valid_binary] in Vx, Vy.
  destruct sx, sy; try lia; cbn [SF2ulps cond_Zopp] in Hu;
    destruct (ulps_inj mx my ex ey Vx Vy ltac:(lia)) as [-> ->]; reflexivity.
Qed.

(** Doubling an [int] in double arithmetic is exact. *)
Lemma dmul_d2_exact (H : Z) :
  is_int H = true -> dmul (double_of_int H) d2 = double_of_int (2 * H).
Proof.
  intros Hi. destruct (double_of_int_spec H Hi) as (Hv & Hf & Hu).
  pose proof Hi as Hb. apply is_int_bounds in Hb.
  change (2 ^ 31) with 2147483648 in Hb.
  destruct (binary_normalize_exact (2 * H) false) as (Hv2 & Hf2 & Hu2 & Hz2).
  { change (2 ^ 53) with 9007199254740992. lia. }
  fold (double_of_int (2 * H)) in Hv2, Hf2, Hu2, Hz2.
  pose proof (pow2_pos 1074 ltac:(lia)) as Hp.
  destruct (double_of_int H) as [s| | |s m e] eqn:E; try discriminate.
  - cbn [SF2ulps] in Hu. assert (H = 0) as -> by nia.
    rewrite double_of_int_0 in E. injection E as <-. reflexivity.
  - cbn [valid_binary] in Hv. pose proof Hv as Hbd. apply bounded_iff in Hbd.
    destruct Hbd as (He & Hm & Hn).
    assert (1 <= Z.abs H) as Habs.
    { cbn [SF2ulps] in Hu. pose proof (ulps_pos m e ltac:(lia)).
      destruct s; cbn [cond_Zopp] in Hu; nia. }
    assert (ulps (Zpos m) e = Z.abs H * 2 ^ 1074) as Hu'.
    { cbn [SF2ulps] in Hu. pose proof (ulps_pos m e ltac:(lia)).
      destruct s; cbn [cond_Zopp] in Hu; nia. }
    assert (-53 < e) as He53.
    { destruct (Z_lt_le_dec (-53) e) as [|Hle]; [assumption|]. exfalso.
      assert (2 ^ (e + 1074) <= 2 ^ 1021) by (apply pow2_le; lia).
      unfold ulps in Hu'.
      assert (Zpos m * 2 ^ (e + 1074) < 2 ^ 53 * 2 ^ 1021).
      { apply Z.lt_le_trans with (2 ^ 53 * 2 ^ (e + 1074));
          [apply Z.mul_lt_mono_pos_r; [apply pow2_pos|]; lia | nia]. }
      change (2 ^ 53 * 2 ^ 1021) with (2 ^ 1074) in *. nia. }
    specialize (Hn ltac:(lia)).
    assert (Zdigits2 (Zpos m) = 53) as Hd by (apply Zdigits2_unique; simpl; lia).
    unfold dmul, SF64mul, d2, SFmul. rewrite Bool.xorb_false_r.
    change 4503599627370496%positive with (2 ^ 52)%positive.
    rewrite Pos2Z.inj_mul. change (Zpos (2 ^ 52)) with (2 ^ 52).
    pose proof (binary_round_aux_exact s (Zpos m * 2 ^ 52) (e + -51) ltac:(lia)) as Hr.
    cbv zeta in Hr. rewrite Zdigits2_mul_pow2, Hd, fexp_eq in Hr by lia.
    replace (Z.max (53 + 52 + (e + -51) - 53) (-1074)) with (e + 1) in Hr by lia.
    replace (e + 1 - (e + -51)) with 52 in Hr by lia.
    rewrite Z.mod_mul, Z.div_mul in Hr by lia.
    specialize (Hr ltac:(lia) eq_refl).
    assert (ulps (Zpos m) (e + 1) = 2 * ulps (Zpos m) e) as Hdbl.
    { unfold ulps. replace (e + 1 + 1074) with (1 + (e + 1074)) by lia.
      rewrite pow2_split by lia. change (2 ^ 1) with 2. ring. }
    symmetry. apply SF2ulps_inj; try assumption.
    + apply (rounded_valid _ _ _ Hr).
    + destruct Hr; reflexivity || (exfalso; rewrite Hdbl, Hu' in *;
        change (2 ^ (1024 + 1074)) with (2 ^ 1024 * 2 ^ 1074) in *;
        assert (2 ^ 32 <= 2 ^ 1024) by (apply pow2_le; lia);
        change (2 ^ 32) with 4294967296 in *; nia).
    + rewrite Hu2. remember (binary_round_aux _ _ _ _ _ _) as r eqn:Er. clear Er.
      cbn [SF2ulps] in Hu.
      destruct Hr as [Hz | m' e' Hb' Hv' | Hinf]; rewrite ?Hdbl in *.
      * exfalso. nia.
      * cbn [SF2ulps]. rewrite Hv'. destruct s; cbn [cond_Zopp] in *; lia.
      * exfalso. rewrite Hu' in *.
        change (2 ^ (1024 + 1074)) with (2 ^ 1024 * 2 ^ 1074) in *.
        assert (2 ^ 32 <= 2 ^ 1024) by (apply pow2_le; lia).
        change (2 ^ 32) with 4294967296 in *. nia.
    + rewrite Hu2. nia.
Qed.


End FloatFacts.

(* ================================================================= *)
(** ** Strings *)

Module StringFacts.
Import StringSpec.

Lemma prefix_true_iff (p s : string) :
  String.prefix p s = true <-> exists rest, s = (p ++ rest)%string.
Proof.
  revert s; induction p as [|a p IH]; intros s.
  - split; [intros _; now exists s | intros _; now destruct s].
  - destruct s as [|b s]; simpl.
    + split; [discriminate | intros [rest H]; discriminate H].
    + destruct (ascii_dec a b) as [->|Hab].
      * rewrite IH. split; intros [rest H]; exists rest.
        -- now rewrite H.
        -- now injection H.
      * split; [discriminate |].
        intros [rest H]. injection H as H1 _. now elim Hab.
Qed.

Lemma contains_of_prefix (h n : string) :
  String.prefix n h = true -> contains h n.
Proof.
  intros Hp. apply prefix_true_iff in Hp as [rest Hp].
  exists EmptyString, rest. exact Hp.
Qed.

Lemma strstr_Some_contains (h n : string) :
  (exists found, strstr h n = Some found) <-> contains h n.
Proof.
  induction h as [|a h IH].
  - unfold strstr. destruct (String.prefix n "") eqn:Hp.
    + split; [intros _; now apply contains_of_prefix | intros _; now eexists].
    + split; [intros [? H]; discriminate H |].
      intros (before & after & H).
      destruct before; [|discriminate H]. simpl in H.
      assert (String.prefix n "" = true) as Hp'
          by (apply prefix_true_iff; now exists after).
      congruence.
  - cbn [strstr]. destruct (String.prefix n (String a h)) eqn:Hp.
    + split; [intros _; now apply contains_of_prefix | intros _; now eexists].
    + rewrite IH. split.
      * intros (before & after & H).
        exists (String a before), after. simpl. now rewrite H.
      * intros (before & after & H).
        destruct before as [|b before]; simpl in H.
        -- assert (String.prefix n (String a h) = true) as Hp'
               by (apply prefix_true_iff; now exists after).
           congruence.
        -- injection H as _ H. now exists before, after.
Qed.

Lemma strstr_None_iff (h n : string) :
  strstr h n = None <-> ~ contains h n.
Proof.
  rewrite <- strstr_Some_contains.
  destruct (strstr h n) as [found|].
  - split; [discriminate | intros H; elim H; now exists found].
  - split; [intros _ [? H]; discriminate H | reflexivity].
Qed.

Lemma g_str_has_prefix_iff (str p : string) :
  g_str_has_prefix str p = true <-> exists rest, str = (p ++ rest)%string.
Proof. apply prefix_true_iff. Qed.

End StringFacts.

(* ================================================================= *)
(** ** bz-spdx.c *)

Module SpdxFacts.
Import Spdx StringFacts.

(** C8. For a non-null identifier [s], [bz_spdx_get_name] returns a
    non-null string: "Proprietary" when [s] starts with
    "LicenseRef-proprietary"; otherwise what [as_license_to_spdx_id]
    gives for [s] when that is non-null; otherwise [s] itself. *)
Theorem bz_spdx_get_name_total
    (as_license_to_spdx_id : string -> option string) (s : string) :
  exists name : string,
    bz_spdx_get_name as_license_to_spdx_id (Some s) = Some name /\
    ((exists rest, s = ("LicenseRef-proprietary" ++ rest)%string) ->
       name = "Proprietary"%string) /\
    (~ (exists rest, s = ("LicenseRef-proprietary" ++ rest)%string) ->
       match as_license_to_spdx_id s with
       | Some converted => name = converted
       | None => name = s
       end).
Proof.
  unfold bz_spdx_get_name.
  destruct (g_str_has_prefix s "LicenseRef-proprietary") eqn:Hp.
  - exists "Proprietary"%string. split; [reflexivity | split; [reflexivity |]].
    intros Hn. elim Hn. now apply g_str_has_prefix_iff.
  - assert (~ (exists rest, s = ("LicenseRef-proprietary" ++ rest)%string)) as Hn.
    { intros H. apply g_str_has_prefix_iff in H. congruence. }
    destruct (as_license_to_spdx_id s) as [converted|].
    + exists converted.
      split; [reflexivity | split; [intros H; now elim Hn | reflexivity]].
    + exists s.
      split; [reflexivity | split; [intros H; now elim Hn | reflexivity]].
Qed.

Lemma bz_spdx_get_name_total_witness :
  exists name : string,
    bz_spdx_get_name (fun _ => None) (Some "LicenseRef-proprietary=https://x"%string)
      = Some name /\ name = "Proprietary"%string.
Proof.
  destruct (bz_spdx_get_name_total (fun _ => None) "LicenseRef-proprietary=https://x")
    as (name & Hname & Hprop & _).
  exists name. split; [exact Hname |].
  apply Hprop. exists "=https://x"%string. reflexivity.
Defined.

(** C9. For a non-null identifier [s], [bz_spdx_is_valid] says TRUE
    exactly when [bz_spdx_get_url] returns a non-null URL. *)
Theorem bz_spdx_is_valid_iff_url
    (as_get_license_url : string -> option string) (s : string) :
  bz_spdx_is_valid as_get_license_url (Some s) = true <->
  bz_spdx_get_url as_get_license_url (Some s) <> None.
Proof.
  unfold bz_spdx_is_valid, bz_spdx_get_url.
  destruct (as_get_license_url s); split; congruence.
Qed.

End SpdxFacts.

(* ================================================================= *)
(** ** bz-transaction-view.c *)

Module TransactionViewFacts.
Import TransactionView StringSpec TransactionViewSpec StringFacts.

(** C2. With all inputs there, [filter_finished_ops_by_app_id] is FALSE
    exactly when the operation's name contains the entry identifier, and
    TRUE otherwise; in every other case it is TRUE. *)
Theorem filter_finished_ops_by_app_id_spec
    (item : option BzTransactionTask) (user_data : option BzTransactionEntryTracker) :
  (forall op_name id, regular item user_data op_name id ->
     (filter_finished_ops_by_app_id item user_data = false <-> contains op_name id) /\
     (filter_finished_ops_by_app_id item user_data = true <-> ~ contains op_name id)) /\
  ((forall op_name id, ~ regular item user_data op_name id) ->
     filter_finished_ops_by_app_id item user_data = true).
Proof.
  split.
  - intros op_name id (task & tracker & entry & op & -> & -> & He & Ht & Hi & Ho & Hn).
    unfold filter_finished_ops_by_app_id. rewrite He, Ht, Hi, Ho, Hn.
    pose proof (strstr_None_iff op_name id) as Hnone.
    pose proof (strstr_Some_contains op_name id) as Hsome.
    destruct (strstr op_name id) as [found|].
    + split; split; try discriminate; try reflexivity.
      * intros _. apply Hsome. now exists found.
      * intros Hc. elim Hc. apply Hsome. now exists found.
    + split; split; try discriminate; try reflexivity.
      * intros Hc. apply Hsome in Hc as [? Hc]. discriminate Hc.
      * intros _. now apply Hnone.
  - intros Hirr. unfold filter_finished_ops_by_app_id.
    destruct item as [task|]; [|reflexivity].
    destruct user_data as [tracker|]; [|reflexivity].
    destruct (task_error task) eqn:He; [reflexivity|].
    destruct (tracker_entry tracker) as [entry|] eqn:Ht; [|reflexivity].
    destruct (entry_id entry) as [id|] eqn:Hi; [|reflexivity].
    destruct (task_op task) as [op|] eqn:Ho; [|reflexivity].
    destruct (payload_name op) as [op_name|] eqn:Hn; [|reflexivity].
    elim (Hirr op_name id). now exists task, tracker, entry, op.
Qed.

Lemma filter_finished_ops_by_app_id_spec_witness :
  filter_finished_ops_by_app_id (Some sample_task) (Some sample_tracker) = false.
Proof.
  destruct (filter_finished_ops_by_app_id_spec (Some sample_task) (Some sample_tracker))
    as [Hreg _].
  apply (Hreg "app/org.gnome.Maps/x86_64/stable"%string "org.gnome.Maps"%string).
  - exists sample_task, sample_tracker, sample_entry,
      {| payload_name := Some "app/org.gnome.Maps/x86_64/stable"%string |}.
    repeat split; reflexivity.
  - exists "app/"%string, "/x86_64/stable"%string. reflexivity.
Defined.

(** C4. The template callbacks return their safe default on null input:
    [is_transaction_type], [is_entry_kind] and [list_has_items] return FALSE
    for a null tracker, a null tracker or entry, and a null model;
    [create_app_id_filter] returns NULL for a null tracker; and
    [get_main_icon] returns the themed icon "application-x-executable"
    whenever the entry has no icon paintable and the tracker, the entry, the
    window or the resolved group is null. *)
Theorem callbacks_default_on_null :
  (forall type, is_transaction_type None type = false) /\
  (forall kind, is_entry_kind None kind = false) /\
  (forall t kind, tracker_entry t = None -> is_entry_kind (Some t) kind = false) /\
  list_has_items None = false /\
  create_app_id_filter None = None /\
  (forall app_kind list_item tracker,
     entry_icon tracker = None ->
     (tracker = None \/
      (exists t, tracker = Some t /\ tracker_entry t = None) \/
      child_ancestor_window list_item = None \/
      resolved_group app_kind list_item tracker = None) ->
     get_main_icon app_kind list_item tracker
       = icon_theme_lookup "application-x-executable" 64 1).
Proof.
  repeat split; try reflexivity.
  - intros t kind Ht. unfold is_entry_kind. now rewrite Ht.
  - intros app_kind list_item tracker Hicon Hnull.
    unfold get_main_icon, return_generic.
    destruct tracker as [t|]; [|reflexivity].
    unfold entry_icon in Hicon. unfold resolved_group in Hnull.
    destruct (tracker_entry t) as [entry|] eqn:Ht; [|reflexivity].
    rewrite Hicon.
    destruct (entry_is_flatpak entry); [|reflexivity].
    destruct (child_ancestor_window list_item) as [window|]; [|reflexivity].
    destruct Hnull as [H | [(t' & Ht' & H) | [H | H]]]; try discriminate.
    + injection Ht' as <-. congruence.
    + now rewrite H.
Qed.

Lemma callbacks_default_on_null_witness :
  get_main_icon 1 {| child_ancestor_window := None |} (Some sample_tracker)
    = icon_theme_lookup "application-x-executable" 64 1.
Proof.
  destruct callbacks_default_on_null as (_ & _ & _ & _ & _ & Hicon).
  apply Hicon.
  - reflexivity.
  - right; right; left. reflexivity.
Defined.

End TransactionViewFacts.

(* ================================================================= *)
(** ** bz-screenshot.c: properties and notifications *)

Module ScreenshotState.
Import Screenshot ScreenshotSpec.

Lemma GskScalingFilter_eqb_eq (a b : GskScalingFilter) :
  GskScalingFilter_eqb a b = true <-> a = b.
Proof. destruct a, b; simpl; split; congruence. Qed.

Lemma GskScalingFilter_eqb_refl (a : GskScalingFilter) : GskScalingFilter_eqb a a = true.
Proof. now apply GskScalingFilter_eqb_eq. Qed.

Lemma reflect_not_true (b : bool) (P : Prop) : (b = true <-> P) -> ~ P -> b = false.
Proof. destruct b; intuition congruence. Qed.

(** C10. The rounded-corners, top-half and filter setters, called with the
    current value, leave the whole widget state as it is, notifications
    included; the focus-x and focus-y setters store the value and notify on
    every call, the current value included. *)
Theorem equality_guarded_setters (self : BzScreenshot) :
  bz_screenshot_set_rounded_corners self (rounded_corners self) = self /\
  bz_screenshot_set_top_half self (top_half self) = self /\
  bz_screenshot_set_filter self (filter self) = self /\
  (forall v,
     focus_x (bz_screenshot_set_focus_x self v) = v /\
     emitted self (bz_screenshot_set_focus_x self v) [PROP_FOCUS_X]) /\
  (forall v,
     focus_y (bz_screenshot_set_focus_y self v) = v /\
     emitted self (bz_screenshot_set_focus_y self v) [PROP_FOCUS_Y]) /\
  emitted self (bz_screenshot_set_focus_x self (focus_x self)) [PROP_FOCUS_X] /\
  emitted self (bz_screenshot_set_focus_y self (focus_y self)) [PROP_FOCUS_Y].
Proof.
  unfold bz_screenshot_set_rounded_corners, bz_screenshot_set_top_half,
    bz_screenshot_set_filter.
  rewrite !Bool.eqb_reflx, GskScalingFilter_eqb_refl.
  repeat split.
Qed.

(** C6, the part that fails: a setter call that emits nothing. *)
Lemma set_rounded_corners_silent :
  ~ (forall self v,
       emitted self (bz_screenshot_set_rounded_corners self v) [PROP_ROUNDED_CORNERS]).
Proof.
  intros H. specialize (H sample_screenshot true).
  unfold emitted in H. simpl in H. discriminate H.
Qed.

(** C6, as the code has it. Every setter followed by its getter gives the
    value back. The paintable, focus-x, focus-y and transaction setters
    notify on every call; the rounded-corners, top-half and filter setters
    notify once when the value differs from the current one and not at all
    when it is equal. *)
Theorem setter_getter_round_trip :
  (forall self v,
     bz_screenshot_get_paintable (bz_screenshot_set_paintable self v) = v /\
     emitted self (bz_screenshot_set_paintable self v) [PROP_PAINTABLE]) /\
  (forall self v,
     bz_screenshot_get_focus_x (bz_screenshot_set_focus_x self v) = v /\
     emitted self (bz_screenshot_set_focus_x self v) [PROP_FOCUS_X]) /\
  (forall self v,
     bz_screenshot_get_focus_y (bz_screenshot_set_focus_y self v) = v /\
     emitted self (bz_screenshot_set_focus_y self v) [PROP_FOCUS_Y]) /\
  (forall self v,
     bz_screenshot_get_rounded_corners (bz_screenshot_set_rounded_corners self v) = v /\
     emitted self (bz_screenshot_set_rounded_corners self v)
       (if Bool.eqb (rounded_corners self) v then [] else [PROP_ROUNDED_CORNERS])) /\
  (forall self v,
     bz_screenshot_get_top_half (bz_screenshot_set_top_half self v) = v /\
     emitted self (bz_screenshot_set_top_half self v)
       (if Bool.eqb (top_half self) v then [] else [PROP_TOP_HALF])) /\
  (forall self v,
     bz_screenshot_get_filter (bz_screenshot_set_filter self v) = v /\
     emitted self (bz_screenshot_set_filter self v)
       (if GskScalingFilter_eqb (filter self) v then [] else [PROP_FILTER])) /\
  (forall self v,
     TransactionView.bz_transaction_view_get_transaction
       (TransactionView.bz_transaction_view_set_transaction self v) = v /\
     TransactionView.notified (TransactionView.bz_transaction_view_set_transaction self v)
       = TransactionView.notified self ++ [TransactionView.PROP_TRANSACTION]).
Proof.
  repeat apply conj; intros self v.
  - split.
    + unfold bz_screenshot_set_paintable.
      destruct v as [p|]; [destruct (paintable_type_of p)|]; reflexivity.
    + unfold emitted, bz_screenshot_set_paintable, disconnect_paintable.
      destruct (paintable self); (destruct v as [p|]; [destruct (paintable_type_of p)|]);
        reflexivity.
  - split; reflexivity.
  - split; reflexivity.
  - unfold bz_screenshot_set_rounded_corners, bz_screenshot_get_rounded_corners, emitted.
    destruct (Bool.eqb (rounded_corners self) v) eqn:E.
    + apply Bool.eqb_prop in E. now rewrite app_nil_r.
    + split; reflexivity.
  - unfold bz_screenshot_set_top_half, bz_screenshot_get_top_half, emitted.
    destruct (Bool.eqb (top_half self) v) eqn:E.
    + apply Bool.eqb_prop in E. now rewrite app_nil_r.
    + split; reflexivity.
  - unfold bz_screenshot_set_filter, bz_screenshot_get_filter, emitted.
    destruct (GskScalingFilter_eqb (filter self) v) eqn:E.
    + apply GskScalingFilter_eqb_eq in E. now rewrite app_nil_r.
    + split; reflexivity.
  - destruct v; split; reflexivity.
Qed.

End ScreenshotState.

(* ================================================================= *)
(** ** bz-screenshot.c: size negotiation and placement *)

Module ScreenshotLayout.
Import Screenshot Binary64 ScreenshotSpec FloatFacts.

Lemma dgt_d0_nonzero (a : double) : dgt a d0 = true -> forall s, a <> S754_zero s.
Proof. intros H s ->. discriminate H. Qed.

Lemma positive_divisor_intro (x a : double) :
  dgt a d0 = true -> positive_divisor {| Trace.dividend := x; Trace.divisor := a |}.
Proof. intros H. split; [exact H | now apply dgt_d0_nonzero]. Qed.

Lemma positive_divisor_d2 (x : double) :
  positive_divisor {| Trace.dividend := x; Trace.divisor := d2 |}.
Proof. now apply positive_divisor_intro. Qed.

Create HintDb divisors.
#[local] Hint Resolve positive_divisor_intro positive_divisor_d2 : divisors.

Ltac divisors_ok :=
  repeat first [apply Forall_nil | apply Forall_cons]; auto with divisors.

(** C3. With a paintable and [top_half] set, the request mode is
    constant-size, [measure] reports 650 horizontally and 265 vertically as
    both minimum and natural whatever [for_size] is, and [snapshot] uses a
    scaled width of exactly 650 and draws at [y = 0]. *)
Theorem top_half_fixed_size (self : BzScreenshot) (p : GdkPaintable) :
  paintable self = Some p ->
  top_half self = true ->
  bz_screenshot_get_request_mode self = GTK_SIZE_REQUEST_CONSTANT_SIZE /\
  (forall for_size out,
     exists out',
       Trace.value (bz_screenshot_measure self GTK_ORIENTATION_HORIZONTAL for_size out)
         = Some out' /\
       minimum out' = 650 /\ natural out' = 650) /\
  (forall for_size out,
     exists out',
       Trace.value (bz_screenshot_measure self GTK_ORIENTATION_VERTICAL for_size out)
         = Some out' /\
       minimum out' = 265 /\ natural out' = 265) /\
  (exists pl,
     Trace.value (bz_screenshot_snapshot self) = Some pl /\
     scaled_w pl = double_of_int 650 /\
     double_truncate (scaled_w pl) = Some 650 /\
     y pl = d0).
Proof.
  intros Hp Ht.
  unfold bz_screenshot_get_request_mode, bz_screenshot_measure, bz_screenshot_snapshot.
  rewrite Hp, Ht.
  repeat apply conj.
  - reflexivity.
  - intros for_size out. eexists. simpl. repeat split.
  - intros for_size out. eexists. simpl. repeat split.
  - destruct (dgt (intrinsic_aspect_ratio p) d0); eexists; simpl; repeat split.
Qed.

Lemma top_half_fixed_size_witness :
  bz_screenshot_get_request_mode sample_top_half = GTK_SIZE_REQUEST_CONSTANT_SIZE.
Proof.
  apply (top_half_fixed_size sample_top_half sample_paintable); reflexivity.
Defined.

(** C7. Every division that [snapshot] and [measure] perform has a divisor
    that compares greater than zero, so none divides by zero; when the
    aspect ratio is not greater than zero, [measure] divides by nothing,
    [snapshot] divides by 2.0 only, and [snapshot] falls back to twice the
    widget height in top-half mode (the doubling is exact for an [int]) and
    to the widget's own width and height otherwise. *)
Theorem guarded_aspect_ratio_division (self : BzScreenshot) :
  Forall positive_divisor (Trace.divisions (bz_screenshot_snapshot self)) /\
  (forall orientation for_size out,
     Forall positive_divisor
       (Trace.divisions (bz_screenshot_measure self orientation for_size out))) /\
  (forall p,
     paintable self = Some p ->
     dgt (intrinsic_aspect_ratio p) d0 = false ->
     (forall orientation for_size out,
        Trace.divisions (bz_screenshot_measure self orientation for_size out) = []) /\
     (forall d, In d (Trace.divisions (bz_screenshot_snapshot self)) ->
                Trace.divisor d = d2) /\
     exists pl,
       Trace.value (bz_screenshot_snapshot self) = Some pl /\
       if top_half self
       then scaled_h pl = dmul (double_of_int (widget_height (parent_instance self))) d2 /\
            (is_int (widget_height (parent_instance self)) = true ->
             scaled_h pl = double_of_int (2 * widget_height (parent_instance self)))
       else scaled_w pl = double_of_int (widget_width (parent_instance self)) /\
            scaled_h pl = double_of_int (widget_height (parent_instance self))).
Proof.
  repeat apply conj.
  - unfold bz_screenshot_snapshot.
    destruct (paintable self) as [p|]; [|constructor].
    destruct (top_half self); destruct (dgt (intrinsic_aspect_ratio p) d0) eqn:Ha.
    + simpl. divisors_ok.
    + simpl. divisors_ok.
    + cbn [Trace.bind Trace.div].
      destruct (dgt _ (double_of_int _)); simpl; divisors_ok.
    + simpl. divisors_ok.
  - intros orientation for_size out. unfold bz_screenshot_measure.
    destruct (paintable self) as [p|]; [|constructor].
    destruct (top_half self); destruct orientation; try constructor.
    destruct (0 <=? for_size); simpl; [|constructor].
    destruct (dgt (intrinsic_aspect_ratio p) d0) eqn:Ha; simpl;
      divisors_ok.
  - intros p Hp Ha. repeat apply conj.
    + intros orientation for_size out. unfold bz_screenshot_measure.
      rewrite Hp, Ha, Bool.andb_false_r.
      destruct (top_half self); destruct orientation; reflexivity.
    + unfold bz_screenshot_snapshot. rewrite Hp, Ha.
      destruct (top_half self); simpl; intros d Hd;
        repeat (destruct Hd as [<- | Hd]; [reflexivity|]); contradiction.
    + unfold bz_screenshot_snapshot. rewrite Hp, Ha.
      destruct (top_half self); eexists; cbn [Trace.bind Trace.div Trace.ret Trace.value fst];
        (split; [reflexivity|]); cbn [scaled_w scaled_h]; split; try reflexivity.
      apply dmul_d2_exact.
Qed.

Lemma guarded_aspect_ratio_division_witness :
  exists pl,
    Trace.value (bz_screenshot_snapshot sample_flat) = Some pl /\
    scaled_w pl = double_of_int 1 /\ scaled_h pl = double_of_int 1.
Proof.
  destruct (guarded_aspect_ratio_division sample_flat) as (_ & _ & H).
  destruct (H sample_flat_paintable) as (_ & _ & pl & Hpl & Hfit);
    [reflexivity | reflexivity |].
  exists pl. split; [exact Hpl | exact Hfit].
Defined.

(** C5. Without a paintable [measure] leaves its output parameters as they
    are. With one and [top_half] unset: measured vertically with
    [for_size >= 0] and an aspect ratio [a > 0], minimum and natural are both
    the smaller of the intrinsic height and the ceiling of [for_size / a],
    the quotient being the double one (a quotient that overflows to
    infinity leaves the intrinsic height); with [for_size < 0] or [a <= 0],
    minimum is 0 and natural is the intrinsic height; measured horizontally,
    minimum is 0 and natural is the intrinsic width. What is stored in
    [minimum] and [natural] is read back from the result field by field, the
    two baselines are as the caller passed them, and no conversion to [int]
    is out of range. *)
Theorem height_for_width_measure (self : BzScreenshot) (for_size : Z) (out : measure_out) :
  (paintable self = None ->
   forall orientation,
     Trace.value (bz_screenshot_measure self orientation for_size out) = Some out) /\
  (forall p,
     paintable self = Some p -> top_half self = false ->
     is_int (intrinsic_height p) = true -> is_int for_size = true ->
     valid_binary (intrinsic_aspect_ratio p) = true ->
     (0 <= for_size -> dgt (intrinsic_aspect_ratio p) d0 = true ->
      let least :=
        match double_ceiling (ddiv (double_of_int for_size) (intrinsic_aspect_ratio p)) with
        | Some n => Z.min (intrinsic_height p) n
        | None => intrinsic_height p
        end in
      exists out',
        Trace.value (bz_screenshot_measure self GTK_ORIENTATION_VERTICAL for_size out)
          = Some out' /\
        minimum out' = least /\ natural out' = least /\
        minimum_baseline out' = minimum_baseline out /\
        natural_baseline out' = natural_baseline out) /\
     (for_size < 0 \/ dle (intrinsic_aspect_ratio p) d0 = true ->
      exists out',
        Trace.value (bz_screenshot_measure self GTK_ORIENTATION_VERTICAL for_size out)
          = Some out' /\
        minimum out' = 0 /\ natural out' = intrinsic_height p /\
        minimum_baseline out' = minimum_baseline out /\
        natural_baseline out' = natural_baseline out) /\
     (exists out',
        Trace.value (bz_screenshot_measure self GTK_ORIENTATION_HORIZONTAL for_size out)
          = Some out' /\
        minimum out' = 0 /\ natural out' = intrinsic_width p /\
        minimum_baseline out' = minimum_baseline out /\
        natural_baseline out' = natural_baseline out)).
Proof.
  split.
  - intros Hp orientation. unfold bz_screenshot_measure. now rewrite Hp.
  - intros p Hp Ht Hh Hf Hv. unfold bz_screenshot_measure. rewrite Hp, Ht.
    repeat apply conj.
    + intros Hfs Ha. cbv zeta.
      assert ((0 <=? for_size) = true) as -> by now apply Z.leb_le.
      rewrite Ha. cbn [andb Trace.bind Trace.div Trace.ret Trace.value fst].
      destruct (ddiv_of_int_rounded for_size _ Hf Hfs Hv Ha) as [v Hr].
      rewrite (int_of_MIN_ceil _ v) by assumption.
      eexists. split; [reflexivity|].
      cbn [set_minimum_natural minimum natural minimum_baseline natural_baseline].
      repeat split.
    + intros [Hneg|Hle].
      * assert ((0 <=? for_size) = false) as -> by now apply Z.leb_gt.
        eexists. split; [reflexivity|].
        cbn [andb Trace.ret Trace.value fst set_minimum_natural
             minimum natural minimum_baseline natural_baseline].
        repeat split.
      * assert (dgt (intrinsic_aspect_ratio p) d0 = false) as ->.
        { unfold dle in Hle. unfold dgt.
          destruct (SFcompare (intrinsic_aspect_ratio p) d0) as [[]|]; congruence. }
        rewrite Bool.andb_false_r.
        eexists. split; [reflexivity|].
        cbn [Trace.ret Trace.value fst set_minimum_natural
             minimum natural minimum_baseline natural_baseline].
        repeat split.
    + eexists. split; [reflexivity|].
      cbn [Trace.ret Trace.value fst set_minimum_natural
           minimum natural minimum_baseline natural_baseline].
      repeat split.
Qed.

Lemma height_for_width_measure_witness :
  exists out',
    Trace.value (bz_screenshot_measure sample_wide GTK_ORIENTATION_VERTICAL 101 sample_out)
      = Some out' /\
    minimum out' = 51 /\ natural out' = 51 /\
    minimum_baseline out' = -1 /\ natural_baseline out' = -1.
Proof.
  destruct (height_for_width_measure sample_wide 101 sample_out) as [_ H].
  destruct (H sample_wide_paintable) as (Hmin & _);
    [reflexivity | reflexivity | reflexivity | reflexivity | reflexivity |].
  destruct Hmin as (out' & Ho & Hm & Hn & Hb1 & Hb2); [lia | reflexivity |].
  exists out'.
  split; [exact Ho|]. split; [exact Hm|]. split; [exact Hn|].
  split; [exact Hb1 | exact Hb2].
Defined.

(** C1, as stated, fails: in a widget of one pixel by one pixel showing a
    paintable of aspect ratio 49, the scaled width is 1 and the scaled
    height is 1 / 49 rounded to double, and their ratio is not 49, neither
    when the product is computed in double arithmetic nor exactly. *)
Lemma fit_aspect_ratio_inexact :
  top_half sample_fit = false /\
  widget_width (parent_instance sample_fit) = 1 /\
  widget_height (parent_instance sample_fit) = 1 /\
  dgt (double_of_int 49) d0 = true /\
  exists pl,
    Trace.value (bz_screenshot_snapshot sample_fit) = Some pl /\
    scaled_w pl = double_of_int 1 /\
    scaled_w pl <> dmul (scaled_h pl) (double_of_int 49) /\
    SF2ulps (scaled_w pl) * 2 ^ 1074 <> SF2ulps (scaled_h pl) * SF2ulps (double_of_int 49).
Proof.
  do 4 (split; [reflexivity|]).
  eexists. split; [reflexivity|]. split; [reflexivity|]. split.
  - vm_compute. discriminate.
  - vm_compute. discriminate.
Qed.

(** C1, as the code has it. For a widget width [W >= 0] and height
    [H >= 0] and a paintable aspect ratio [a > 0], the branch of [snapshot]
    that is not top-half computes a rectangle that keeps the aspect ratio up
    to one rounding (the width is [W] and the height is the double quotient
    [W / a], or the height is [H] and the width is the double product
    [H * a]), fits within the widget ([scaled_w <= W] and [scaled_h <= H],
    rounding included), fills one dimension exactly, and is centred at
    [x = (W - scaled_w) / 2], [y = (H - scaled_h) / 2]. *)
Theorem fit_within_bounds (self : BzScreenshot) (p : GdkPaintable) :
  paintable self = Some p -> top_half self = false ->
  let W := widget_width (parent_instance self) in
  let H := widget_height (parent_instance self) in
  let a := intrinsic_aspect_ratio p in
  0 <= W <= INT_MAX -> 0 <= H <= INT_MAX ->
  valid_binary a = true -> dgt a d0 = true ->
  exists pl,
    Trace.value (bz_screenshot_snapshot self) = Some pl /\
    ((scaled_w pl = double_of_int W /\ scaled_h pl = ddiv (double_of_int W) a) \/
     (scaled_h pl = double_of_int H /\ scaled_w pl = dmul (double_of_int H) a)) /\
    dle (scaled_w pl) (double_of_int W) = true /\
    dle (scaled_h pl) (double_of_int H) = true /\
    (scaled_w pl = double_of_int W \/ scaled_h pl = double_of_int H) /\
    x pl = ddiv (dsub (double_of_int W) (scaled_w pl)) d2 /\
    y pl = ddiv (dsub (double_of_int H) (scaled_h pl)) d2.
Proof.
  intros Hp Ht W H a HW HH Hv Ha.
  assert (is_int W = true) as HiW by (apply is_int_bounds; unfold INT_MAX in HW; lia).
  assert (is_int H = true) as HiH by (apply is_int_bounds; unfold INT_MAX in HH; lia).
  assert (forall z, is_int z = true -> dle (double_of_int z) (double_of_int z) = true) as Hrefl.
  { intros z Hz. destruct (double_of_int_spec z Hz) as (Hvz & Hfz & _).
    unfold dle. rewrite SFcompare_finite by assumption. now rewrite Z.compare_refl. }
  unfold bz_screenshot_snapshot. rewrite Hp, Ht. fold W H a. rewrite Ha.
  cbn [Trace.bind Trace.div Trace.ret].
  destruct (dgt (ddiv (double_of_int W) a) (double_of_int H)) eqn:Hgt;
    cbn [Trace.value fst]; eexists; (split; [reflexivity|]); cbn [scaled_w scaled_h x y].
  - repeat apply conj; auto.
    apply fit_within_width; auto; lia.
  - repeat apply conj; auto.
    apply fit_within_height; auto; lia.
Qed.

Lemma fit_within_bounds_witness :
  exists pl,
    Trace.value (bz_screenshot_snapshot sample_fit) = Some pl /\
    dle (scaled_w pl) (double_of_int 1) = true /\
    dle (scaled_h pl) (double_of_int 1) = true.
Proof.
  destruct (fit_within_bounds sample_fit sample_paintable)
    as (pl & Hpl & _ & Hw & Hh & _);
    [reflexivity | reflexivity | vm_compute; split; discriminate
     | vm_compute; split; discriminate | reflexivity | reflexivity |].
  exists pl. auto.
Defined.

End ScreenshotLayout.

(* ================================================================= *)
(** ** Doubles that are not negative *)

Module FloatSigns.
Import Binary64 FloatFacts.

Lemma SFmul_finite_rounded (mx my : positive) (ex ey : Z) :
  bounded prec emax mx ex = true -> bounded prec emax my ey = true ->
  exists v,
    rounded false v (SF64mul (S754_finite false mx ex) (S754_finite false my ey)).
Proof.
  intros Hx Hy. unfold SF64mul, SFmul. cbn [xorb].
  apply bounded_iff in Hx, Hy. destruct Hx as (Hex & Hmx & Hnx), Hy as (Hey & Hmy & Hny).
  assert (inbetween (Zpos (mx * my)) 1 (Zpos (mx * my)) loc_Exact) as Hin
      by (cbn [inbetween]; lia).
  destruct (binary_round_aux_rounded false (Zpos (mx * my)) 1 (Zpos (mx * my))
              (ex + ey) loc_Exact ltac:(lia) ltac:(lia) Hin)
    as (m1 & e1 & l1 & _ & _ & _ & _ & _ & _ & Hr).
  - rewrite fexp_eq. destruct (Z_le_gt_dec (ex + ey) (-1074)); [lia|].
    assert (53 <= Zdigits2 (Zpos (mx * my))); [|lia].
    apply (Zdigits2_ge _ 52); [lia|]. rewrite Pos2Z.inj_mul.
    assert (2 ^ 52 <= Zpos mx \/ 2 ^ 52 <= Zpos my) as [H|H] by lia; nia.
  - eexists. exact Hr.
Qed.

(** Rounding a mantissa gives a double of the sign asked for, never a NaN. *)
Lemma binary_round_signed (s : bool) (mx : positive) (ex : Z) :
  exists v, rounded s v (binary_round prec emax s mx ex).
Proof.
  unfold binary_round.
  pose proof (shl_align_spec mx ex (fexp prec emax (Zpos (digits2_pos mx) + ex))) as [Hez Hmz].
  destruct (shl_align mx ex _) as [mz ez]. cbn [fst snd] in Hez, Hmz.
  change (Zpos (digits2_pos mx)) with (Zdigits2 (Zpos mx)) in Hez, Hmz.
  remember (fexp prec emax (Zdigits2 (Zpos mx) + ex)) as f eqn:Ef.
  assert (ez <= fexp prec emax (Zdigits2 (Zpos mz) + ez)) as Hpre.
  { rewrite Hmz, Zdigits2_mul_pow2 by lia.
    replace (Zdigits2 (Zpos mx) + (ex - Z.min ex f) + ez)
      with (Zdigits2 (Zpos mx) + ex) by lia.
    rewrite <- Ef. lia. }
  assert (inbetween (Zpos mz) 1 (Zpos mz) loc_Exact) as Hin by (cbn [inbetween]; lia).
  destruct (binary_round_aux_rounded s (Zpos mz) 1 (Zpos mz) ez loc_Exact
              ltac:(lia) ltac:(lia) Hin Hpre)
    as (m1 & e1 & l1 & _ & _ & _ & _ & _ & _ & Hr).
  eexists. exact Hr.
Qed.

Lemma rounded_nonneg (v : Z) (r : spec_float) : rounded false v r -> dle d0 r = true.
Proof. intros H. destruct H; reflexivity. Qed.

Lemma rounded_double_of_int (z : Z) :
  is_int z = true -> 0 <= z -> rounded false (z * 2 ^ 1074) (double_of_int z).
Proof.
  intros Hi Hz.
  destruct (double_of_int_nonneg_cases z Hi Hz) as [[-> ->]|[_ (m & e & -> & Hb & Hu)]].
  - now apply rounded_zero.
  - now apply rounded_finite.
Qed.

Lemma dle_double_of_int_refl (z : Z) :
  is_int z = true -> dle (double_of_int z) (double_of_int z) = true.
Proof.
  intros Hi. destruct (double_of_int_spec z Hi) as (Hv & Hf & _).
  unfold dle. rewrite (SFcompare_finite _ _ Hv Hv Hf Hf), Z.compare_refl. reflexivity.
Qed.

(** Halving keeps the sign. *)
Lemma ddiv_d2_rounded (v : Z) (r : spec_float) :
  rounded false v r -> exists v', rounded false v' (ddiv r d2).
Proof.
  intros H. destruct H as [Hv|m e Hb Hv|Hv].
  - exists 0. now apply rounded_zero.
  - unfold ddiv, d2. apply SFdiv_finite_rounded.
  - exists (2 ^ (1024 + 1074)). apply rounded_infinity. apply Z.le_refl.
Qed.

(** A difference whose subtrahend does not exceed the other operand is not
    negative, the rounding of the difference included. *)
Lemma dsub_rounded (vx vy : Z) (x y : spec_float) :
  rounded false vx x -> is_finite_SF x = true ->
  rounded false vy y -> dle y x = true ->
  exists v, rounded false v (dsub x y).
Proof.
  intros Hx Fx Hy Hle.
  destruct Hx as [Hvx|mx ex Hbx Hvx|Hvx]; [| |discriminate Fx];
    destruct Hy as [Hvy|my ey Hby Hvy|Hvy]; try discriminate Hle.
  - exists 0. now apply rounded_zero.
  - exists (ulps (Zpos mx) ex). now apply rounded_finite.
  - unfold dle in Hle.
    rewrite (SFcompare_finite (S754_finite false my ey) (S754_finite false mx ex)
               Hby Hbx eq_refl eq_refl) in Hle.
    cbn [SF2ulps cond_Zopp] in Hle.
    assert (ulps (Zpos my) ey <= ulps (Zpos mx) ex) as Hu.
    { destruct (Z.compare_spec (ulps (Zpos my) ey) (ulps (Zpos mx) ex));
        try discriminate; lia. }
    clear Hle. unfold dsub, SF64sub, SFsub. cbn [cond_Zopp].
    pose proof (shl_align_spec mx ex (Z.min ex ey)) as [_ Hmx].
    pose proof (shl_align_spec my ey (Z.min ex ey)) as [_ Hmy].
    destruct (shl_align mx ex (Z.min ex ey)) as [mx' ex'].
    destruct (shl_align my ey (Z.min ex ey)) as [my' ey'].
    cbn [fst] in *.
    pose proof (bounded_emin _ _ Hbx) as Hex. pose proof (bounded_emin _ _ Hby) as Hey.
    assert (Zpos my' <= Zpos mx') as Hm.
    { rewrite Hmx, Hmy. unfold ulps in Hu.
      replace (Z.min ex (Z.min ex ey)) with (Z.min ex ey) by lia.
      replace (Z.min ey (Z.min ex ey)) with (Z.min ex ey) by lia.
      remember (Z.min ex ey) as ez eqn:Ez.
      assert (0 < 2 ^ (ez + 1074)) as Hp by (apply pow2_pos; lia).
      apply Z.mul_le_mono_pos_r with (2 ^ (ez + 1074)); [exact Hp|].
      rewrite <- !Z.mul_assoc, <- !pow2_split by lia.
      replace (ex - ez + (ez + 1074)) with (ex + 1074) by lia.
      replace (ey - ez + (ez + 1074)) with (ey + 1074) by lia.
      exact Hu. }
    destruct (Zpos mx' - Zpos my') as [|p|p] eqn:Ed; [| |lia]; cbn [binary_normalize].
    + exists 0. now apply rounded_zero.
    + apply binary_round_signed.
Qed.

(** The offset that centres an extent within an [int] extent of the widget
    that it does not exceed is not negative. *)
Lemma centring_offset_nonneg (X v : Z) (extent : spec_float) :
  is_int X = true -> 0 <= X ->
  rounded false v extent -> dle extent (double_of_int X) = true ->
  dle d0 (ddiv (dsub (double_of_int X) extent) d2) = true.
Proof.
  intros Hi HX He Hle.
  destruct (double_of_int_spec X Hi) as (_ & Hf & _).
  destruct (dsub_rounded _ _ _ _ (rounded_double_of_int X Hi HX) Hf He Hle) as [v1 H1].
  destruct (ddiv_d2_rounded _ _ H1) as [v2 H2].
  exact (rounded_nonneg _ _ H2).
Qed.

End FloatSigns.

(* ================================================================= *)
(** ** bz-screenshot.c: life cycle *)

Module ScreenshotLifeCycle.
Import Screenshot ScreenshotSpec ScreenshotObject ScreenshotObjectSpec.

Lemma disconnect_paintable_well_connected (self : BzScreenshot) :
  well_connected self ->
  connections (parent_instance (disconnect_paintable self)) = [] /\
  paintable (disconnect_paintable self) = paintable self.
Proof.
  unfold well_connected, disconnect_paintable, handlers_for.
  destruct (paintable self) as [old|] eqn:Hp; intros Hc; [|auto].
  unfold g_signal_handlers_disconnect_by_func, with_connections, with_parent.
  cbn [parent_instance connections paintable]. rewrite Hc, Hp.
  split; [|reflexivity].
  destruct (paintable_type_of old); cbn [app List.filter fst snd handler_eqb];
    rewrite ?Nat.eqb_refl; cbn [andb negb List.filter fst snd handler_eqb];
    rewrite ?Nat.eqb_refl; cbn [andb negb List.filter fst snd handler_eqb];
    rewrite ?Nat.eqb_refl; reflexivity.
Qed.

Lemma set_paintable_well_connected (self : BzScreenshot) (p : option GdkPaintable) :
  well_connected self -> well_connected (bz_screenshot_set_paintable self p).
Proof.
  intros Hw. destruct (disconnect_paintable_well_connected self Hw) as [Hc _].
  unfold well_connected, bz_screenshot_set_paintable.
  destruct p as [p|]; [destruct (paintable_type_of p) eqn:Ht|];
    cbn; rewrite ?Hc, ?Ht; reflexivity.
Qed.

Lemma step_well_connected (self : BzScreenshot) (c : call) :
  well_connected self -> well_connected (step self c).
Proof.
  intros Hw. destruct c as [p|v|v|v|v|v| | |]; cbn [step].
  - now apply set_paintable_well_connected.
  - exact Hw.
  - exact Hw.
  - unfold bz_screenshot_set_rounded_corners.
    destruct (Bool.eqb (rounded_corners self) v); exact Hw.
  - unfold bz_screenshot_set_top_half.
    destruct (Bool.eqb (top_half self) v); exact Hw.
  - unfold bz_screenshot_set_filter.
    destruct (GskScalingFilter_eqb (filter self) v); exact Hw.
  - exact Hw.
  - exact Hw.
  - exact Hw.
Qed.

Lemma run_well_connected (calls : list call) (self : BzScreenshot) :
  well_connected self -> well_connected (run self calls).
Proof.
  revert self. induction calls as [|c calls IH]; intros self Hw; [exact Hw|].
  cbn [run fold_left]. apply IH. now apply step_well_connected.
Qed.

(** X1. Whatever setters are called and signals fire, in whatever order, on
    a widget initialised without connections, the widget is connected to the
    paintable it shows and to no other: it holds the two invalidation
    handlers, the load handler when the paintable is an asynchronous
    texture, each once, and nothing on a paintable it has let go. *)
Theorem connections_follow_paintable (w : GtkWidget) (calls : list call) :
  connections w = [] ->
  connections (parent_instance (run (bz_screenshot_init w) calls))
    = handlers_for (paintable (run (bz_screenshot_init w) calls)).
Proof.
  intros Hw. apply run_well_connected. exact Hw.
Qed.

Lemma connections_follow_paintable_witness :
  connections (parent_instance (run (bz_screenshot_init sample_widget) sample_calls))
    = [(2%nat, invalidate_contents); (2%nat, invalidate_size)].
Proof.
  apply (connections_follow_paintable sample_widget sample_calls). reflexivity.
Defined.

(** X2. Disposing a widget after any such history lets the paintable go and
    leaves no connection behind, touches nothing else, and a second disposal
    changes nothing. *)
Theorem dispose_releases (w : GtkWidget) (calls : list call) :
  connections w = [] ->
  let self := run (bz_screenshot_init w) calls in
  let disposed := bz_screenshot_dispose self in
  paintable disposed = None /\
  connections (parent_instance disposed) = [] /\
  notified (parent_instance disposed) = notified (parent_instance self) /\
  queued_draws (parent_instance disposed) = queued_draws (parent_instance self) /\
  queued_resizes (parent_instance disposed) = queued_resizes (parent_instance self) /\
  focus_x disposed = focus_x self /\ focus_y disposed = focus_y self /\
  rounded_corners disposed = rounded_corners self /\
  top_half disposed = top_half self /\ filter disposed = filter self /\
  bz_screenshot_dispose disposed = disposed.
Proof.
  intros Hw self disposed.
  assert (well_connected self) as Hs by (apply run_well_connected; exact Hw).
  destruct (disconnect_paintable_well_connected self Hs) as [Hc Hp].
  unfold disposed, bz_screenshot_dispose.
  assert (forall s, notified (parent_instance (disconnect_paintable s))
                    = notified (parent_instance s) /\
                    queued_draws (parent_instance (disconnect_paintable s))
                    = queued_draws (parent_instance s) /\
                    queued_resizes (parent_instance (disconnect_paintable s))
                    = queued_resizes (parent_instance s) /\
                    focus_x (disconnect_paintable s) = focus_x s /\
                    focus_y (disconnect_paintable s) = focus_y s /\
                    rounded_corners (disconnect_paintable s) = rounded_corners s /\
                    top_half (disconnect_paintable s) = top_half s /\
                    filter (disconnect_paintable s) = filter s) as Hframe.
  { intros s. unfold disconnect_paintable. destruct (paintable s); repeat split. }
  destruct (Hframe self) as (H1 & H2 & H3 & H4 & H5 & H6 & H7 & H8).
  cbn [store_paintable paintable parent_instance focus_x focus_y rounded_corners
       top_half filter].
  repeat (split; [assumption || reflexivity|]).
  unfold disconnect_paintable at 1. cbn [store_paintable paintable].
  cbn [store_paintable parent_instance focus_x focus_y rounded_corners top_half filter].
  reflexivity.
Qed.

Lemma dispose_releases_witness :
  paintable (bz_screenshot_dispose (run (bz_screenshot_init sample_widget) sample_calls))
    = None /\
  connections (parent_instance
                 (bz_screenshot_dispose (run (bz_screenshot_init sample_widget) sample_calls)))
    = [].
Proof.
  destruct (dispose_releases sample_widget sample_calls) as (Hp & Hc & _);
    [reflexivity|].
  split; [exact Hp | exact Hc].
Defined.

(** X3. The rounded-corners, top-half and filter setters are idempotent:
    a second call with the same value leaves the whole state, notifications
    and queued redraws included, as the first call left it. *)
Theorem guarded_setters_idempotent (self : BzScreenshot) :
  (forall v, bz_screenshot_set_rounded_corners (bz_screenshot_set_rounded_corners self v) v
             = bz_screenshot_set_rounded_corners self v) /\
  (forall v, bz_screenshot_set_top_half (bz_screenshot_set_top_half self v) v
             = bz_screenshot_set_top_half self v) /\
  (forall v, bz_screenshot_set_filter (bz_screenshot_set_filter self v) v
             = bz_screenshot_set_filter self v).
Proof.
  repeat apply conj; intros v.
  - unfold bz_screenshot_set_rounded_corners at 1.
    assert (rounded_corners (bz_screenshot_set_rounded_corners self v) = v) as ->.
    { unfold bz_screenshot_set_rounded_corners.
      destruct (Bool.eqb (rounded_corners self) v) eqn:E; [|reflexivity].
      now apply Bool.eqb_prop. }
    now rewrite Bool.eqb_reflx.
  - unfold bz_screenshot_set_top_half at 1.
    assert (top_half (bz_screenshot_set_top_half self v) = v) as ->.
    { unfold bz_screenshot_set_top_half.
      destruct (Bool.eqb (top_half self) v) eqn:E; [|reflexivity].
      now apply Bool.eqb_prop. }
    now rewrite Bool.eqb_reflx.
  - unfold bz_screenshot_set_filter at 1.
    assert (filter (bz_screenshot_set_filter self v) = v) as ->.
    { unfold bz_screenshot_set_filter.
      destruct (GskScalingFilter_eqb (filter self) v) eqn:E; [|reflexivity].
      destruct (filter self), v; try discriminate; reflexivity. }
    destruct v; reflexivity.
Qed.

End ScreenshotLifeCycle.

(* ================================================================= *)
(** ** bz-screenshot.c: what is recorded into the snapshot *)

Module ScreenshotDrawing.
Import Screenshot ScreenshotSpec ScreenshotObject ScreenshotObjectSpec.

Lemma snapshot_placement_defined (self : BzScreenshot) (p : GdkPaintable) :
  paintable self = Some p ->
  exists pl, Trace.value (bz_screenshot_snapshot self) = Some pl.
Proof.
  intros Hp. unfold bz_screenshot_snapshot. rewrite Hp.
  destruct (top_half self); destruct (dgt (intrinsic_aspect_ratio p) d0).
  - eexists. cbn [Trace.bind Trace.div Trace.ret Trace.value fst]. reflexivity.
  - eexists. cbn [Trace.bind Trace.div Trace.ret Trace.value fst]. reflexivity.
  - cbn [Trace.bind Trace.div].
    destruct (dgt _ (double_of_int _)); eexists;
      cbn [Trace.bind Trace.div Trace.ret Trace.value fst]; reflexivity.
  - eexists. cbn [Trace.bind Trace.div Trace.ret Trace.value fst]. reflexivity.
Qed.

Section Drawing.

Variable bz_async_texture_dup_texture : GdkPaintable -> option GdkTexture.

(** X4. The focus point is stored and reported but never read by the
    layout or the drawing: two widgets that agree on the paintable, the
    allocation and the other three settings request the same mode, measure
    the same, place the image the same and record the same calls, whatever
    their focus points are. *)
Theorem focus_never_read (a b : BzScreenshot) :
  same_but_focus a b ->
  bz_screenshot_get_request_mode a = bz_screenshot_get_request_mode b /\
  (forall orientation for_size out,
     bz_screenshot_measure a orientation for_size out
       = bz_screenshot_measure b orientation for_size out) /\
  bz_screenshot_snapshot a = bz_screenshot_snapshot b /\
  bz_screenshot_snapshot_draw bz_async_texture_dup_texture a
    = bz_screenshot_snapshot_draw bz_async_texture_dup_texture b.
Proof.
  intros (Hp & Hr & Ht & Hf & Hw & Hh).
  assert (bz_screenshot_snapshot a = bz_screenshot_snapshot b) as Hs.
  { unfold bz_screenshot_snapshot. rewrite Hp, Ht, Hw, Hh. reflexivity. }
  repeat apply conj.
  - unfold bz_screenshot_get_request_mode. now rewrite Ht.
  - intros orientation for_size out. unfold bz_screenshot_measure.
    now rewrite Hp, Ht.
  - exact Hs.
  - unfold bz_screenshot_snapshot_draw. rewrite Hs, Hp, Hr, Ht, Hf, Hw, Hh.
    reflexivity.
Qed.

(** X5. The clips that [snapshot] pushes are all popped before it returns
    and no pop finds the stack empty, whatever the settings, the paintable
    and the state of its texture; without a paintable nothing at all is
    recorded. *)
Theorem snapshot_clips_balanced (self : BzScreenshot) :
  clip_depth 0 (bz_screenshot_snapshot_draw bz_async_texture_dup_texture self) = Some 0%nat /\
  (paintable self = None ->
   bz_screenshot_snapshot_draw bz_async_texture_dup_texture self = []).
Proof.
  unfold bz_screenshot_snapshot_draw. split.
  - destruct (paintable self) as [p|]; [|reflexivity].
    destruct (Trace.value (bz_screenshot_snapshot self)) as [pl|]; [|reflexivity].
    destruct (rounded_corners self), (top_half self), (is_nearest (filter self)),
      (paintable_type_of p); try destruct (bz_async_texture_dup_texture p);
      reflexivity.
  - intros ->. reflexivity.
Qed.

(** X6. With a paintable, [snapshot] translates exactly once, to the
    computed origin, and draws at most once, at the computed size, after
    the translation. It draws nothing in exactly one case: the filter is
    the nearest-neighbour one and the paintable is an asynchronous texture
    that has no texture to give yet. *)
Theorem snapshot_draws_once (self : BzScreenshot) (p : GdkPaintable) :
  paintable self = Some p ->
  exists pl before between after,
    Trace.value (bz_screenshot_snapshot self) = Some pl /\
    bz_screenshot_snapshot_draw bz_async_texture_dup_texture self
      = before
        ++ [gtk_snapshot_translate
              (GRAPHENE_POINT_INIT (float_of_double (x pl)) (float_of_double (y pl)))]
        ++ between ++ after /\
    List.filter is_translate (before ++ between ++ after) = [] /\
    List.filter is_draw (before ++ after) = [] /\
    (if is_nearest (filter self)
     then match paintable_type_of p with
          | BZ_ASYNC_TEXTURE =>
              match bz_async_texture_dup_texture p with
              | Some texture =>
                  exists r, between = [gtk_snapshot_append_scaled_texture
                                         texture GSK_SCALING_FILTER_NEAREST r] /\
                            drawn_at pl (gtk_snapshot_append_scaled_texture
                                           texture GSK_SCALING_FILTER_NEAREST r)
              | None => between = []
              end
          | GDK_TEXTURE =>
              exists r, between = [gtk_snapshot_append_scaled_texture
                                     (GDK_TEXTURE_cast p) GSK_SCALING_FILTER_NEAREST r] /\
                        drawn_at pl (gtk_snapshot_append_scaled_texture
                                       (GDK_TEXTURE_cast p) GSK_SCALING_FILTER_NEAREST r)
          | GDK_OTHER_PAINTABLE =>
              between = [gdk_paintable_snapshot p (scaled_w pl) (scaled_h pl)]
          end
     else between = [gdk_paintable_snapshot p (scaled_w pl) (scaled_h pl)]).
Proof.
  intros Hp. destruct (snapshot_placement_defined self p Hp) as [pl Hpl].
  unfold bz_screenshot_snapshot_draw. rewrite Hp, Hpl.
  exists pl. eexists. eexists. eexists.
  split; [reflexivity|]. split; [reflexivity|].
  assert (is_nearest (filter self) = true -> filter self = GSK_SCALING_FILTER_NEAREST)
    as Hn by (unfold is_nearest; destruct (filter self); auto; discriminate).
  destruct (is_nearest (filter self)) eqn:En.
  - rewrite (Hn eq_refl).
    destruct (rounded_corners self), (top_half self), (paintable_type_of p);
      try destruct (bz_async_texture_dup_texture p);
      (split; [reflexivity|]); (split; [reflexivity|]);
      try reflexivity; eexists; split; reflexivity.
  - destruct (rounded_corners self), (top_half self), (paintable_type_of p);
      (split; [reflexivity|]); (split; [reflexivity|]); reflexivity.
Qed.

End Drawing.

Lemma focus_never_read_witness :
  bz_screenshot_snapshot (bz_screenshot_set_focus_x sample_fit (double_of_int 3))
    = bz_screenshot_snapshot sample_fit.
Proof.
  apply (focus_never_read (fun _ => None)
           (bz_screenshot_set_focus_x sample_fit (double_of_int 3)) sample_fit).
  repeat split.
Defined.

Lemma snapshot_draws_once_witness :
  exists pl before between after,
    Trace.value (bz_screenshot_snapshot sample_fit) = Some pl /\
    bz_screenshot_snapshot_draw (fun _ => None) sample_fit
      = before
        ++ [gtk_snapshot_translate
              (GRAPHENE_POINT_INIT (float_of_double (x pl)) (float_of_double (y pl)))]
        ++ between ++ after.
Proof.
  destruct (snapshot_draws_once (fun _ => None) sample_fit sample_paintable eq_refl)
    as (pl & before & between & after & Hpl & Hd & _).
  exists pl, before, between, after. split; [exact Hpl | exact Hd].
Defined.

End ScreenshotDrawing.

(* ================================================================= *)
(** ** bz-screenshot.c: the property interface *)

Module ScreenshotProperties.
Import Screenshot ScreenshotSpec ScreenshotObject ScreenshotObjectSpec
  ScreenshotPropertySpec.

Lemma guarded_bool_cases (a b : bool) :
  Bool.eqb a b = true -> a = b.
Proof. apply Bool.eqb_prop. Qed.

(** X7. [set_property] and [get_property] dispatch alike: a value written
    under a property's identifier is the value read back under the same
    identifier, for each of the six properties. An identifier that names no
    property makes [set_property] leave the widget as it is and
    [get_property] leave the value as it is. *)
Theorem property_interface_round_trip (self : BzScreenshot) :
  (forall p value self' previous,
     bz_screenshot_set_property self (prop_id p) value = Some self' ->
     bz_screenshot_get_property self' (prop_id p) previous = value) /\
  (forall id value,
     invalid_id id ->
     bz_screenshot_set_property self id value = Some self /\
     bz_screenshot_get_property self id value = value).
Proof.
  split.
  - intros p value self' previous.
    destruct p; destruct value as [o|d|b|e]; cbn; intros H;
      try discriminate H; injection H as <-.
    + unfold bz_screenshot_get_paintable, bz_screenshot_set_paintable.
      destruct o as [p|]; [destruct (paintable_type_of p)|]; reflexivity.
    + reflexivity.
    + reflexivity.
    + unfold bz_screenshot_get_rounded_corners, bz_screenshot_set_rounded_corners.
      destruct (Bool.eqb (rounded_corners self) b) eqn:E; [|reflexivity].
      now rewrite (guarded_bool_cases _ _ E).
    + unfold bz_screenshot_get_top_half, bz_screenshot_set_top_half.
      destruct (Bool.eqb (top_half self) b) eqn:E; [|reflexivity].
      now rewrite (guarded_bool_cases _ _ E).
    + unfold bz_screenshot_get_filter, bz_screenshot_set_filter.
      destruct (GskScalingFilter_eqb (filter self) e) eqn:E; [|reflexivity].
      destruct (filter self), e; try discriminate E; reflexivity.
  - intros id value [H|H]; unfold PROP_0, LAST_PROP in H;
      unfold bz_screenshot_set_property, bz_screenshot_get_property;
      destruct id as [|q|q]; try (split; reflexivity);
      do 3 (destruct q as [q|q|]; try lia; try (split; reflexivity)).
Qed.

Lemma property_interface_round_trip_witness :
  bz_screenshot_get_property
    (bz_screenshot_set_top_half sample_fit true) 5 (G_VALUE_BOOLEAN false)
    = G_VALUE_BOOLEAN true.
Proof.
  apply (property_interface_round_trip sample_fit)
    with (p := PROP_TOP_HALF) (value := G_VALUE_BOOLEAN true).
  reflexivity.
Defined.

(** X8. Properties are independent: a setter leaves every property but its
    own as it was, a signal of the paintable leaves all six as they were,
    and neither touches the allocation of the widget. *)
Theorem calls_change_own_property_only
    (self : BzScreenshot) (c : call) (q : property) (previous : GValue) :
  own_property c <> Some q ->
  bz_screenshot_get_property (step self c) (prop_id q) previous
    = bz_screenshot_get_property self (prop_id q) previous /\
  widget_width (parent_instance (step self c)) = widget_width (parent_instance self) /\
  widget_height (parent_instance (step self c)) = widget_height (parent_instance self).
Proof.
  intros Hq.
  assert (forall s, paintable (disconnect_paintable s) = paintable s /\
                    focus_x (disconnect_paintable s) = focus_x s /\
                    focus_y (disconnect_paintable s) = focus_y s /\
                    rounded_corners (disconnect_paintable s) = rounded_corners s /\
                    top_half (disconnect_paintable s) = top_half s /\
                    filter (disconnect_paintable s) = filter s /\
                    widget_width (parent_instance (disconnect_paintable s))
                      = widget_width (parent_instance s) /\
                    widget_height (parent_instance (disconnect_paintable s))
                      = widget_height (parent_instance s)) as Hd.
  { intros s. unfold disconnect_paintable.
    destruct (paintable s) eqn:E; cbn; rewrite ?E; repeat split. }
  destruct (Hd self) as (D1 & D2 & D3 & D4 & D5 & D6 & D7 & D8).
  destruct c as [p|v|v|v|v|v| | |]; cbn [step].
  - assert (focus_x (bz_screenshot_set_paintable self p) = focus_x self /\
            focus_y (bz_screenshot_set_paintable self p) = focus_y self /\
            rounded_corners (bz_screenshot_set_paintable self p) = rounded_corners self /\
            top_half (bz_screenshot_set_paintable self p) = top_half self /\
            filter (bz_screenshot_set_paintable self p) = filter self /\
            widget_width (parent_instance (bz_screenshot_set_paintable self p))
              = widget_width (parent_instance self) /\
            widget_height (parent_instance (bz_screenshot_set_paintable self p))
              = widget_height (parent_instance self)) as (S2 & S3 & S4 & S5 & S6 & S7 & S8).
    { unfold bz_screenshot_set_paintable.
      destruct p as [p|]; [destruct (paintable_type_of p)|]; cbn;
        repeat split; assumption. }
    split; [|split; assumption].
    destruct q; cbn [prop_id bz_screenshot_get_property];
      unfold bz_screenshot_get_focus_x, bz_screenshot_get_focus_y,
        bz_screenshot_get_rounded_corners, bz_screenshot_get_top_half,
        bz_screenshot_get_filter;
      try congruence.
    exfalso. now apply Hq.
  - split; [|split; reflexivity].
    destruct q; try reflexivity. exfalso. now apply Hq.
  - split; [|split; reflexivity].
    destruct q; try reflexivity. exfalso. now apply Hq.
  - unfold bz_screenshot_set_rounded_corners.
    destruct (Bool.eqb (rounded_corners self) v); [repeat split|].
    split; [|split; reflexivity].
    destruct q; try reflexivity. exfalso. now apply Hq.
  - unfold bz_screenshot_set_top_half.
    destruct (Bool.eqb (top_half self) v); [repeat split|].
    split; [|split; reflexivity].
    destruct q; try reflexivity. exfalso. now apply Hq.
  - unfold bz_screenshot_set_filter.
    destruct (GskScalingFilter_eqb (filter self) v); [repeat split|].
    split; [|split; reflexivity].
    destruct q; try reflexivity. exfalso. now apply Hq.
  - repeat split.
  - repeat split.
  - repeat split.
Qed.

Lemma calls_change_own_property_only_witness :
  bz_screenshot_get_property
    (step sample_fit (call_set_top_half true)) 1 (G_VALUE_OBJECT None)
    = bz_screenshot_get_property sample_fit 1 (G_VALUE_OBJECT None).
Proof.
  apply (calls_change_own_property_only sample_fit (call_set_top_half true)
           PROP_PAINTABLE (G_VALUE_OBJECT None)).
  discriminate.
Defined.

End ScreenshotProperties.

(* ================================================================= *)
(** ** bz-screenshot.c: the size request and the drawing together *)

Module ScreenshotRequest.
Import Screenshot Binary64 ScreenshotSpec FloatFacts ScreenshotObject ScreenshotObjectSpec.

Lemma double_ceiling_bounds (m : positive) (e n : Z) :
  double_ceiling (S754_finite false m e) = Some n ->
  (n - 1) * 2 ^ 1074 < ulps (Zpos m) e <= n * 2 ^ 1074.
Proof.
  intros H.
  assert (n = - (- ulps (Zpos m) e / 2 ^ 1074)) as ->
      by (cbv beta iota delta [double_ceiling SF2ulps cond_Zopp] in H; congruence).
  clear H.
  set (u := ulps (Zpos m) e). set (P := 2 ^ 1074).
  assert (0 < P) as HP by (apply pow2_pos; lia).
  pose proof (Z.div_mod (- u) P ltac:(lia)) as Hdm.
  pose proof (Z.mod_pos_bound (- u) P HP) as Hm.
  set (d := - u / P) in *. set (r := (- u) mod P) in *.
  lia.
Qed.

Lemma double_ceiling_rounded_nonneg (v n : Z) (q : double) :
  rounded false v q -> double_ceiling q = Some n -> 0 <= n.
Proof.
  intros Hr. destruct Hr as [Hv|m e Hb Hv|Hv]; intros Hc.
  - cbn in Hc. injection Hc as <-. lia.
  - destruct (ceil_finite_spec m e Hb) as (n' & Hn' & Hpos & _).
    rewrite Hn' in Hc. injection Hc as <-. lia.
  - discriminate Hc.
Qed.

(** X9. With a paintable whose intrinsic width and height are not
    negative, [measure] always gives a result, with
    [0 <= minimum <= natural], with a natural size that is at most the
    fixed top-half size or the intrinsic size in the measured direction,
    and with both baselines left as the caller passed them. *)
Theorem measure_contract
    (self : BzScreenshot) (p : GdkPaintable) (orientation : GtkOrientation)
    (for_size : Z) (out : measure_out) :
  paintable self = Some p ->
  is_int (intrinsic_width p) = true -> is_int (intrinsic_height p) = true ->
  0 <= intrinsic_width p -> 0 <= intrinsic_height p ->
  is_int for_size = true ->
  valid_binary (intrinsic_aspect_ratio p) = true ->
  exists out',
    Trace.value (bz_screenshot_measure self orientation for_size out) = Some out' /\
    0 <= minimum out' <= natural out' /\
    natural out' <= (if top_half self
                     then match orientation with
                          | GTK_ORIENTATION_HORIZONTAL => TOP_HALF_FIXED_WIDTH
                          | GTK_ORIENTATION_VERTICAL => TOP_HALF_FIXED_HEIGHT
                          end
                     else match orientation with
                          | GTK_ORIENTATION_HORIZONTAL => intrinsic_width p
                          | GTK_ORIENTATION_VERTICAL => intrinsic_height p
                          end) /\
    minimum_baseline out' = minimum_baseline out /\
    natural_baseline out' = natural_baseline out.
Proof.
  intros Hp Hw Hh Hw0 Hh0 Hf Hv. unfold bz_screenshot_measure. rewrite Hp.
  destruct (top_half self).
  - destruct orientation; eexists; (split; [reflexivity|]);
      cbn; unfold TOP_HALF_FIXED_WIDTH, TOP_HALF_FIXED_HEIGHT; repeat split; lia.
  - destruct orientation.
    + eexists. split; [reflexivity|]. cbn. repeat split; lia.
    + cbv zeta.
      destruct (0 <=? for_size) eqn:Hfs;
        [destruct (dgt (intrinsic_aspect_ratio p) d0) eqn:Ha|].
      * apply Z.leb_le in Hfs.
        cbn [andb Trace.bind Trace.div Trace.ret Trace.value fst].
        destruct (ddiv_of_int_rounded for_size _ Hf Hfs Hv Ha) as [v Hr].
        rewrite (int_of_MIN_ceil _ v) by assumption.
        eexists. split; [reflexivity|]. cbn.
        destruct (double_ceiling _) as [n|] eqn:Hc.
        -- pose proof (double_ceiling_rounded_nonneg v n _ Hr Hc).
           repeat split; lia.
        -- repeat split; lia.
      * eexists. split; [reflexivity|]. cbn. repeat split; lia.
      * eexists. split; [reflexivity|]. cbn. repeat split; lia.
Qed.

Lemma measure_contract_witness :
  exists out',
    Trace.value (bz_screenshot_measure sample_wide GTK_ORIENTATION_VERTICAL 101 sample_out)
      = Some out' /\
    0 <= minimum out' <= natural out'.
Proof.
  destruct (measure_contract sample_wide sample_wide_paintable
              GTK_ORIENTATION_VERTICAL 101 sample_out)
    as (out' & Hm & Hb & _);
    [reflexivity | reflexivity | reflexivity | cbn; lia | cbn; lia
    | reflexivity | reflexivity |].
  exists out'. split; [exact Hm | exact Hb].
Defined.

Lemma dgt_finite_ulps (x y : double) :
  valid_binary x = true -> valid_binary y = true ->
  is_finite_SF x = true -> is_finite_SF y = true ->
  dgt x y = (SF2ulps y <? SF2ulps x).
Proof.
  intros Hx Hy Fx Fy. unfold dgt. rewrite (SFcompare_finite x y) by assumption.
  destruct (Z.compare_spec (SF2ulps x) (SF2ulps y)) as [E|E|E]; symmetry.
  - apply Z.ltb_ge. lia.
  - apply Z.ltb_ge. lia.
  - apply Z.ltb_lt. lia.
Qed.

(** X10. The size request and the drawing agree. Let a widget that is not
    in top-half mode show a paintable of aspect ratio [a > 0] and be
    allocated a width and the natural height that [measure] gives for that
    width. Then [snapshot] either draws the image over the whole width, at a
    height whose ceiling is that natural height, or the natural height is
    the intrinsic height and the image is drawn at exactly that height. *)
Theorem natural_height_is_drawn_height
    (self : BzScreenshot) (p : GdkPaintable) (out out' : measure_out) :
  paintable self = Some p -> top_half self = false ->
  is_int (widget_width (parent_instance self)) = true ->
  0 <= widget_width (parent_instance self) ->
  is_int (intrinsic_height p) = true -> 0 <= intrinsic_height p ->
  valid_binary (intrinsic_aspect_ratio p) = true ->
  dgt (intrinsic_aspect_ratio p) d0 = true ->
  Trace.value (bz_screenshot_measure self GTK_ORIENTATION_VERTICAL
                 (widget_width (parent_instance self)) out) = Some out' ->
  widget_height (parent_instance self) = natural out' ->
  exists pl,
    Trace.value (bz_screenshot_snapshot self) = Some pl /\
    ((scaled_w pl = double_of_int (widget_width (parent_instance self)) /\
      double_ceiling (scaled_h pl) = Some (natural out')) \/
     (natural out' = intrinsic_height p /\
      scaled_h pl = double_of_int (intrinsic_height p) /\
      scaled_w pl = dmul (double_of_int (intrinsic_height p)) (intrinsic_aspect_ratio p))).
Proof.
  intros Hp Ht HW HW0 Hh Hh0 Hv Ha Hm HH.
  destruct (ddiv_of_int_rounded _ _ HW HW0 Hv Ha) as [v Hr].
  unfold bz_screenshot_measure in Hm. rewrite Hp, Ht in Hm. cbv zeta in Hm.
  assert ((0 <=? widget_width (parent_instance self)) = true) as Hge
      by now apply Z.leb_le.
  rewrite Hge, Ha in Hm.
  cbn [andb Trace.bind Trace.div Trace.ret Trace.value fst] in Hm.
  rewrite (int_of_MIN_ceil _ v) in Hm by assumption.
  injection Hm as <-. cbn [natural set_minimum_natural] in *.
  unfold bz_screenshot_snapshot. rewrite Hp, Ht, Ha.
  cbn [Trace.bind Trace.div]. rewrite HH.
  remember (ddiv (double_of_int (widget_width (parent_instance self)))
                 (intrinsic_aspect_ratio p)) as q eqn:Eq.
  clear Eq.
  destruct (double_of_int_spec _ Hh) as (Vh & Fh & Uh).
  destruct Hr as [Hv0|m e Hb Hv0|Hv0].
  - (* the quotient is zero *)
    cbn [double_ceiling].
    replace (Z.min (intrinsic_height p) 0) with 0 by lia.
    rewrite double_of_int_0.
    eexists. split; [reflexivity|]. left. split; reflexivity.
  - destruct (ceil_finite_spec m e Hb) as (n & Hn & Hpos & _).
    rewrite Hn.
    pose proof (double_ceiling_bounds m e n Hn) as Hbn.
    assert (valid_binary (S754_finite false m e) = true) as Vq by exact Hb.
    destruct (Z.le_gt_cases n (intrinsic_height p)) as [Hle|Hgt].
    + replace (Z.min (intrinsic_height p) n) with n by lia.
      assert (is_int n = true) as Hin.
      { apply is_int_bounds. apply is_int_bounds in Hh. lia. }
      destruct (double_of_int_spec _ Hin) as (Vn & Fn & Un).
      rewrite (dgt_finite_ulps _ _ Vq Vn eq_refl Fn), Un.
      cbn [SF2ulps cond_Zopp].
      assert ((n * 2 ^ 1074 <? ulps (Z.pos m) e) = false) as -> by (apply Z.ltb_ge; lia).
      eexists. split; [reflexivity|]. left. cbn [scaled_w scaled_h].
      split; [reflexivity | exact Hn].
    + replace (Z.min (intrinsic_height p) n) with (intrinsic_height p) by lia.
      rewrite (dgt_finite_ulps _ _ Vq Vh eq_refl Fh), Uh.
      cbn [SF2ulps cond_Zopp].
      assert ((intrinsic_height p * 2 ^ 1074 <? ulps (Z.pos m) e) = true) as ->.
      { apply Z.ltb_lt.
        apply Z.le_lt_trans with ((n - 1) * 2 ^ 1074); [|lia].
        assert (0 < 2 ^ 1074) by (apply pow2_pos; lia).
        apply Z.mul_le_mono_nonneg_r; lia. }
      eexists. split; [reflexivity|]. right. cbn [scaled_w scaled_h].
      repeat split.
  - (* the quotient overflowed *)
    cbn [double_ceiling].
    assert (dgt (S754_infinity false) (double_of_int (intrinsic_height p)) = true) as ->.
    { destruct (double_of_int_nonneg_cases _ Hh Hh0)
        as [[_ ->]|[_ (m & e & -> & _)]]; reflexivity. }
    eexists. split; [reflexivity|]. right. cbn [scaled_w scaled_h].
    repeat split.
Qed.

Lemma natural_height_is_drawn_height_witness :
  exists pl,
    Trace.value (bz_screenshot_snapshot sample_allocated) = Some pl /\
    ((scaled_w pl = double_of_int 101 /\ double_ceiling (scaled_h pl) = Some 51) \/
     (51 = 600 /\
      scaled_h pl = double_of_int 600 /\
      scaled_w pl = dmul (double_of_int 600) (double_of_int 2))).
Proof.
  apply (natural_height_is_drawn_height sample_allocated sample_wide_paintable
           sample_out (set_minimum_natural sample_out 51 51));
    try reflexivity; cbn; lia.
Defined.

End ScreenshotRequest.

(* ================================================================= *)
(** ** bz-transaction-view.c: resolving the group of an entry *)

Module TransactionViewResolve.
Import TransactionView TransactionViewSpec TransactionViewResolveSpec.

Lemma no_slash_cons (c : ascii) (s : string) :
  no_slash (String c s) -> c <> "/"%char /\ no_slash s.
Proof.
  unfold no_slash. cbn [list_ascii_of_string In]. intros H. split.
  - intros ->. apply H. now left.
  - intros Hin. apply H. now right.
Qed.

Lemma strchr_skips (prefix rest : string) :
  no_slash prefix ->
  strchr (prefix ++ String "/" rest) "/" = Some (String "/" rest).
Proof.
  induction prefix as [|c prefix IH]; intros Hn.
  - reflexivity.
  - apply no_slash_cons in Hn as [Hc Hn].
    cbn [append strchr].
    destruct (Ascii.eqb c "/") eqn:E.
    + apply Ascii.eqb_eq in E. contradiction.
    + now apply IH.
Qed.

Lemma strchr_no_slash (s : string) : no_slash s -> strchr s "/" = None.
Proof.
  induction s as [|c s IH]; intros Hn.
  - reflexivity.
  - apply no_slash_cons in Hn as [Hc Hn].
    cbn [strchr].
    destruct (Ascii.eqb c "/") eqn:E.
    + apply Ascii.eqb_eq in E. contradiction.
    + now apply IH.
Qed.

Lemma length_append_sub (a b : string) :
  (String.length (a ++ b) - String.length b = String.length a)%nat.
Proof.
  assert (String.length (a ++ b) = String.length a + String.length b)%nat as ->.
  { induction a as [|c a IH]; cbn [append String.length]; [reflexivity | now rewrite IH]. }
  lia.
Qed.

Lemma substring_prefix (a b : string) :
  String.substring 0 (String.length a) (a ++ b) = a.
Proof.
  induction a as [|c a IH]; cbn [append String.length String.substring].
  - now destruct b.
  - now rewrite IH.
Qed.

Lemma terminate_at_tail (id tail : string) :
  no_slash id -> ref_tail tail ->
  terminate_at (id ++ tail) (strchr (id ++ tail) "/") = id.
Proof.
  intros Hn [->|[rest ->]].
  - assert (id ++ "" = id)%string as ->.
    { clear Hn. induction id as [|c id IH]; cbn [append]; [reflexivity | now rewrite IH]. }
    now rewrite strchr_no_slash.
  - rewrite strchr_skips by assumption. unfold terminate_at.
    rewrite length_append_sub. apply substring_prefix.
Qed.

Section Resolve.

Variable BZ_ENTRY_KIND_APPLICATION : Z.

(** X11. For an entry that is not found by its own identifier, and whose
    addon ref reads [kind/id] or [kind/id/...], the group is the one the
    application factory gives for [id], the text between the first slash and
    the second: what precedes the first slash and what follows the second
    play no part. *)
Theorem resolve_group_by_addon_ref
    (entry : BzEntry) (window : BzWindow) (info : BzStateInfo)
    (kind id tail : string) :
  window_state_info window = Some info ->
  not_found_by_id BZ_ENTRY_KIND_APPLICATION entry info ->
  addon_extension_of_ref entry = Some (kind ++ String "/" (id ++ tail))%string ->
  no_slash kind -> no_slash id -> ref_tail tail ->
  resolve_group_from_entry BZ_ENTRY_KIND_APPLICATION entry window
    = application_factory_convert_one info (Some id).
Proof.
  intros Hi Hby Hr Hk Hid Ht. unfold resolve_group_from_entry. rewrite Hi, Hr.
  assert ((if entry_is_of_kinds entry BZ_ENTRY_KIND_APPLICATION
           then application_factory_convert_one info (entry_id entry)
           else None) = None) as ->.
  { destruct Hby as [->| ->]; [reflexivity|].
    now destruct (entry_is_of_kinds entry BZ_ENTRY_KIND_APPLICATION). }
  rewrite strchr_skips by assumption.
  cbv zeta. now rewrite terminate_at_tail.
Qed.

(** X12. Where [resolve_group_from_entry] stops. Without a state info it
    gives no group, whatever the entry is. With one, the group found by the
    identifier of an application is returned without looking at the addon
    ref; and an entry not found by its identifier gives no group when it has
    no addon ref or a ref without a slash. *)
Theorem resolve_group_order (entry : BzEntry) (window : BzWindow) :
  (window_state_info window = None ->
   resolve_group_from_entry BZ_ENTRY_KIND_APPLICATION entry window = None) /\
  (forall info group,
     window_state_info window = Some info ->
     entry_is_of_kinds entry BZ_ENTRY_KIND_APPLICATION = true ->
     application_factory_convert_one info (entry_id entry) = Some group ->
     resolve_group_from_entry BZ_ENTRY_KIND_APPLICATION entry window = Some group) /\
  (forall info,
     window_state_info window = Some info ->
     not_found_by_id BZ_ENTRY_KIND_APPLICATION entry info ->
     addon_extension_of_ref entry = None \/
     (exists ref, addon_extension_of_ref entry = Some ref /\ no_slash ref) ->
     resolve_group_from_entry BZ_ENTRY_KIND_APPLICATION entry window = None).
Proof.
  unfold resolve_group_from_entry. repeat apply conj.
  - intros ->. reflexivity.
  - intros info group -> -> ->. reflexivity.
  - intros info -> Hby Href.
    assert ((if entry_is_of_kinds entry BZ_ENTRY_KIND_APPLICATION
             then application_factory_convert_one info (entry_id entry)
             else None) = None) as ->.
    { destruct Hby as [->| ->]; [reflexivity|].
      now destruct (entry_is_of_kinds entry BZ_ENTRY_KIND_APPLICATION). }
    destruct Href as [->|(ref & -> & Hn)]; [reflexivity|].
    now rewrite strchr_no_slash.
Qed.

End Resolve.

Lemma resolve_group_by_addon_ref_witness :
  resolve_group_from_entry 1 sample_addon sample_window = Some sample_group.
Proof.
  apply (resolve_group_by_addon_ref 1 sample_addon sample_window sample_info
           "app" "org.gnome.Maps" "/x86_64/stable").
  - reflexivity.
  - left. reflexivity.
  - reflexivity.
  - unfold no_slash. cbn. intros H. decompose [or] H; try discriminate; assumption.
  - unfold no_slash. cbn. intros H. decompose [or] H; try discriminate; assumption.
  - right. eexists. reflexivity.
Defined.

Lemma resolve_group_order_witness :
  resolve_group_from_entry 1 sample_runtime sample_window = None.
Proof.
  destruct (resolve_group_order 1 sample_runtime sample_window) as (_ & _ & H).
  apply (H sample_info).
  - reflexivity.
  - left. reflexivity.
  - left. reflexivity.
Defined.

End TransactionViewResolve.

(* ================================================================= *)
(** ** bz-transaction-view.c: the download progress *)

Module TransactionViewProgress.
Import Binary64 FloatFacts FloatSigns TransactionViewFormat.

Lemma double_of_uint64_cases (n : Z) :
  0 <= n < 2 ^ 53 ->
  (n = 0 /\ double_of_uint64 n = S754_zero false) \/
  (0 < n /\ exists m e, double_of_uint64 n = S754_finite false m e /\
                        bounded prec emax m e = true /\ ulps (Zpos m) e = n * 2 ^ 1074).
Proof.
  intros Hn. unfold double_of_uint64.
  destruct (binary_normalize_exact n false ltac:(lia)) as (Hv & Hf & Hu & Hz).
  destruct (Z.eq_dec n 0) as [E|E]; [left; auto|].
  right. split; [lia|].
  pose proof (pow2_pos 1074 ltac:(lia)) as Hp.
  pose proof (SF2ulps_sign _ Hv) as Hs.
  destruct (binary_normalize prec emax n 0 false) as [s| | |s m e]; try discriminate.
  - cbn [SF2ulps] in Hu. nia.
  - destruct s.
    + rewrite Hu in Hs. nia.
    + exists m, e. repeat split; [exact Hv | exact Hu].
Qed.

Lemma progress_cases (progress : double) :
  valid_binary progress = true ->
  dle d0 progress = true -> dle progress (double_of_int 1) = true ->
  (exists s, progress = S754_zero s) \/
  (exists m e, progress = S754_finite false m e /\ bounded prec emax m e = true /\
               ulps (Zpos m) e <= 2 ^ 1074).
Proof.
  intros Hv H0 H1. destruct progress as [s|s| |s m e].
  - left. now exists s.
  - destruct s; discriminate.
  - discriminate.
  - destruct s; [discriminate|]. right. exists m, e.
    repeat split; [exact Hv|].
    destruct (double_of_int_spec 1 eq_refl) as (V1 & F1 & U1).
    unfold dle in H1. rewrite (SFcompare_finite _ _ Hv V1 eq_refl F1) in H1.
    rewrite U1 in H1. cbn [SF2ulps cond_Zopp] in H1.
    destruct (Z.compare_spec (ulps (Zpos m) e) (1 * 2 ^ 1074)); try discriminate; lia.
Qed.

Lemma downloaded_bytes_bounded (progress : double) (total_size : Z) :
  0 <= total_size < 2 ^ 53 ->
  valid_binary progress = true ->
  dle d0 progress = true -> dle progress (double_of_int 1) = true ->
  exists downloaded,
    downloaded_bytes progress total_size = Some downloaded /\
    0 <= downloaded <= total_size.
Proof.
  intros Ht Hv H0 H1. unfold downloaded_bytes.
  destruct (double_of_uint64_cases total_size Ht)
    as [[-> ->]|[Hpos (mt & et & -> & Hbt & Hut)]];
    destruct (progress_cases progress Hv H0 H1) as [[s ->]|(m & e & -> & Hb & Hle)].
  - exists 0. split; [reflexivity | lia].
  - exists 0. split; [reflexivity | lia].
  - exists 0. split; [reflexivity | lia].
  - unfold dmul.
    destruct (SFmul_finite_rounded m mt e et Hb Hbt) as [v Hr].
    assert (SFleb (SF64mul (S754_finite false m e) (S754_finite false mt et))
                  (S754_finite false mt et) = true) as Hleb.
    { apply SFmul_finite_le; try assumption.
      pose proof (ulps_pos mt et (bounded_emin _ _ Hbt)).
      rewrite (Z.mul_comm (ulps (Zpos m) e)).
      apply Z.mul_le_mono_nonneg_l; lia. }
    remember (SF64mul (S754_finite false m e) (S754_finite false mt et)) as r eqn:Er.
    clear Er.
    destruct Hr as [Hv0|m' e' Hb' Hv0|Hv0].
    + exists 0. split; [reflexivity | lia].
    + unfold SFleb in Hleb.
      rewrite (SFcompare_finite (S754_finite false m' e') (S754_finite false mt et)
                 Hb' Hbt eq_refl eq_refl) in Hleb.
      cbn [SF2ulps cond_Zopp] in Hleb.
      assert (ulps (Zpos m') e' <= ulps (Zpos mt) et) as Hle'.
      { destruct (Z.compare_spec (ulps (Zpos m') e') (ulps (Zpos mt) et));
          try discriminate; lia. }
      pose proof (ulps_pos m' e' (bounded_emin _ _ Hb')) as Hpos'.
      pose proof (pow2_pos 1074 ltac:(lia)) as Hp.
      unfold uint64_of_double.
      rewrite (double_truncate_spec (S754_finite false m' e') Hb' eq_refl).
      cbn [SF2ulps cond_Zopp]. rewrite Z.quot_div_nonneg by lia.
      set (z := ulps (Zpos m') e' / 2 ^ 1074).
      assert (0 <= z <= total_size) as Hz.
      { unfold z. split; [apply Z.div_pos; lia|].
        apply Z.div_le_upper_bound; [lia|]. lia. }
      exists z.
      assert ((0 <=? z) && (z <=? UINT64_MAX) = true) as ->.
      { apply andb_true_intro. split; [apply Z.leb_le; lia|].
        apply Z.leb_le. unfold UINT64_MAX.
        assert (2 ^ 53 <= 2 ^ 64 - 1) by (vm_compute; discriminate). lia. }
      split; [reflexivity | exact Hz].
    + discriminate Hleb.
Qed.

Lemma bounded_canonical (m : positive) (e : Z) :
  bounded prec emax m e = true -> fexp prec emax (Zdigits2 (Zpos m) + e) = e.
Proof.
  unfold bounded, canonical_mantissa. intros H.
  apply andb_prop in H as [H _]. apply Z.eqb_eq in H. exact H.
Qed.

Lemma dmul_one_exact (mt : positive) (et : Z) :
  bounded prec emax mt et = true ->
  dmul (double_of_int 1) (S754_finite false mt et) = S754_finite false mt et.
Proof.
  intros Hb. pose proof (bounded_canonical mt et Hb) as Hc.
  pose proof Hb as Hb'. apply bounded_iff in Hb'. destruct Hb' as (He & Hm & Hn).
  change (double_of_int 1) with (S754_finite false (2 ^ 52)%positive (-52)).
  unfold dmul, SF64mul, SFmul. cbn [xorb].
  rewrite Pos2Z.inj_mul. change (Zpos (2 ^ 52)) with (2 ^ 52).
  rewrite (Z.mul_comm (2 ^ 52)).
  pose proof (binary_round_aux_exact false (Zpos mt * 2 ^ 52) (-52 + et) ltac:(lia)) as Hr.
  cbv zeta in Hr. rewrite Zdigits2_mul_pow2 in Hr by lia.
  replace (Zdigits2 (Zpos mt) + 52 + (-52 + et)) with (Zdigits2 (Zpos mt) + et) in Hr by lia.
  rewrite Hc in Hr.
  replace (et - (-52 + et)) with 52 in Hr by lia.
  rewrite Z.mod_mul, Z.div_mul in Hr by lia.
  specialize (Hr ltac:(lia) eq_refl).
  remember (binary_round_aux prec emax false (Zpos mt * 2 ^ 52) (-52 + et) loc_Exact)
    as r eqn:Er.
  clear Er.
  pose proof (ulps_pos mt et ltac:(lia)) as Hpos.
  destruct Hr as [Hv0|m' e' Hb' Hv0|Hv0].
  - lia.
  - symmetry in Hv0. apply ulps_inj in Hv0; try assumption.
    destruct Hv0 as [-> ->]. reflexivity.
  - exfalso. unfold ulps in Hv0.
    assert (2 ^ (et + 1074) <= 2 ^ 2045) by (apply pow2_le; lia).
    assert (Zpos mt * 2 ^ (et + 1074) < 2 ^ 53 * 2 ^ 2045).
    { apply Z.lt_le_trans with (2 ^ 53 * 2 ^ (et + 1074));
        [apply Z.mul_lt_mono_pos_r; [apply pow2_pos|]; lia|].
      apply Z.mul_le_mono_nonneg_l; lia. }
    rewrite <- pow2_split in H0 by lia.
    change (53 + 2045) with (1024 + 1074) in H0. lia.
Qed.

Section Format.

Variable g_format_size : Z -> string.

(** X13. For a total of less than [2^53] bytes and a progress between 0
    and 1, [format_download_progress] converts nothing out of range and
    shows a number of downloaded bytes between 0 and the total, followed by
    the total: no rounding of the product makes the first figure exceed the
    second. At a progress of 0 it shows 0 bytes, at a progress of 1 the
    total itself. *)
Theorem format_download_progress_bounded (progress : double) (total_size : Z) :
  0 <= total_size < 2 ^ 53 ->
  valid_binary progress = true ->
  dle d0 progress = true -> dle progress (double_of_int 1) = true ->
  exists downloaded,
    0 <= downloaded <= total_size /\
    format_download_progress g_format_size progress total_size
      = Some (g_format_size downloaded ++ " / " ++ g_format_size total_size)%string /\
    (progress = d0 -> downloaded = 0) /\
    (progress = double_of_int 1 -> downloaded = total_size).
Proof.
  intros Ht Hv H0 H1.
  destruct (downloaded_bytes_bounded progress total_size Ht Hv H0 H1)
    as (downloaded & Hd & Hb).
  exists downloaded. split; [exact Hb|]. split.
  - unfold format_download_progress. rewrite Hd. reflexivity.
  - split; intros ->.
    + unfold downloaded_bytes in Hd.
      destruct (double_of_uint64_cases total_size Ht)
        as [[_ E]|[_ (mt & et & E & _)]]; rewrite E in Hd;
        cbn in Hd; congruence.
    + unfold downloaded_bytes in Hd.
      destruct (double_of_uint64_cases total_size Ht)
        as [[-> E]|[Hpos (mt & et & E & Hbt & Hut)]]; rewrite E in Hd.
      * cbn in Hd. congruence.
      * rewrite (dmul_one_exact mt et Hbt) in Hd.
        unfold uint64_of_double in Hd.
        rewrite (double_truncate_integral (S754_finite false mt et) total_size
                   Hbt eq_refl Hut) in Hd.
        destruct ((0 <=? total_size) && (total_size <=? UINT64_MAX)); congruence.
Qed.

End Format.

Lemma format_download_progress_bounded_witness :
  exists downloaded,
    0 <= downloaded <= 1000 /\
    format_download_progress (fun _ => EmptyString) (double_of_int 1) 1000
      = Some (" / ")%string.
Proof.
  destruct (format_download_progress_bounded (fun _ => EmptyString) (double_of_int 1) 1000)
    as (downloaded & Hb & Hf & _);
    [cbn; lia | reflexivity | reflexivity | reflexivity |].
  exists downloaded. split; [exact Hb | exact Hf].
Defined.

End TransactionViewProgress.

(* ================================================================= *)
(** ** bz-screenshot.c: where the fitted image is drawn *)

Module ScreenshotCentring.
Import Screenshot Binary64 ScreenshotSpec FloatFacts FloatSigns.

Lemma dmul_of_int_rounded (H : Z) (a : double) :
  is_int H = true -> 0 <= H -> valid_binary a = true -> dgt a d0 = true ->
  a <> S754_infinity false ->
  exists v, rounded false v (dmul (double_of_int H) a).
Proof.
  intros Hi HH Hv Ha Hinf.
  destruct (dgt_d0_cases a Hv Ha) as [->|(ma & ea & -> & Hba)]; [contradiction|].
  destruct (double_of_int_nonneg_cases H Hi HH) as [[-> ->]|[_ (m & e & -> & Hb & _)]].
  - exists 0. now apply rounded_zero.
  - unfold dmul. now apply SFmul_finite_rounded.
Qed.

(** X15. In the fitting mode the image is never drawn at a negative
    offset: for a widget of width and height not negative, the origin
    [(x, y)] that [snapshot] translates to has [0 <= x] and [0 <= y], the
    roundings of the scaled size, of the differences and of the halving
    included, and whatever the aspect ratio of the paintable is. *)
Theorem fit_origin_nonneg (self : BzScreenshot) (p : GdkPaintable) :
  paintable self = Some p -> top_half self = false ->
  is_int (widget_width (parent_instance self)) = true ->
  is_int (widget_height (parent_instance self)) = true ->
  0 <= widget_width (parent_instance self) ->
  0 <= widget_height (parent_instance self) ->
  valid_binary (intrinsic_aspect_ratio p) = true ->
  exists pl,
    Trace.value (bz_screenshot_snapshot self) = Some pl /\
    dle d0 (x pl) = true /\ dle d0 (y pl) = true.
Proof.
  intros Hp Ht HiW HiH HW HH Hv.
  unfold bz_screenshot_snapshot. rewrite Hp, Ht.
  set (W := widget_width (parent_instance self)) in *.
  set (H := widget_height (parent_instance self)) in *.
  set (a := intrinsic_aspect_ratio p) in *.
  pose proof (centring_offset_nonneg W _ _ HiW HW (rounded_double_of_int W HiW HW)
                (dle_double_of_int_refl W HiW)) as HxW.
  pose proof (centring_offset_nonneg H _ _ HiH HH (rounded_double_of_int H HiH HH)
                (dle_double_of_int_refl H HiH)) as HyH.
  destruct (dgt a d0) eqn:Ha.
  - cbn [Trace.bind Trace.div].
    destruct (dgt (ddiv (double_of_int W) a) (double_of_int H)) eqn:Hq.
    + eexists. split; [reflexivity|]. cbn [x y Trace.value fst]. split; [|exact HyH].
      assert (a <> S754_infinity false) as Hinf.
      { intros E. rewrite E in Hq.
        destruct (double_of_int_nonneg_cases W HiW HW) as [[_ EW]|[_ (m & e & EW & _)]];
          rewrite EW in Hq;
          destruct (double_of_int_nonneg_cases H HiH HH) as [[_ EH]|[_ (m' & e' & EH & _)]];
          rewrite EH in Hq; discriminate Hq. }
      destruct (dmul_of_int_rounded H a HiH HH Hv Ha Hinf) as [v Hr].
      apply (centring_offset_nonneg W v); try assumption.
      now apply fit_within_width.
    + eexists. split; [reflexivity|]. cbn [x y Trace.value fst]. split; [exact HxW|].
      destruct (ddiv_of_int_rounded W a HiW HW Hv Ha) as [v Hr].
      apply (centring_offset_nonneg H v); try assumption.
      now apply fit_within_height.
  - eexists. split; [reflexivity|]. cbn [x y Trace.value fst]. split; assumption.
Qed.

Lemma fit_origin_nonneg_witness :
  exists pl,
    Trace.value (bz_screenshot_snapshot sample_fit) = Some pl /\
    dle d0 (x pl) = true /\ dle d0 (y pl) = true.
Proof.
  apply (fit_origin_nonneg sample_fit sample_paintable);
    try reflexivity; cbn; lia.
Defined.

End ScreenshotCentring.

(* ================================================================= *)
(** ** bz-screenshot.c: what is invalidated when *)

Module ScreenshotInvalidation.
Import Screenshot ScreenshotSpec ScreenshotObject ScreenshotObjectSpec
  ScreenshotPropertySpec.

Lemma measure_reads (a b : BzScreenshot) :
  paintable a = paintable b -> top_half a = top_half b ->
  forall orientation for_size out,
    bz_screenshot_measure a orientation for_size out
      = bz_screenshot_measure b orientation for_size out.
Proof.
  intros Hp Ht orientation for_size out. unfold bz_screenshot_measure.
  now rewrite Hp, Ht.
Qed.

Lemma set_paintable_queues (self : BzScreenshot) (p : option GdkPaintable) :
  queued_resizes (parent_instance (bz_screenshot_set_paintable self p))
    = S (queued_resizes (parent_instance self)) /\
  queued_draws (parent_instance (bz_screenshot_set_paintable self p))
    = S (queued_draws (parent_instance self)).
Proof.
  assert (queued_resizes (parent_instance (disconnect_paintable self))
            = queued_resizes (parent_instance self) /\
          queued_draws (parent_instance (disconnect_paintable self))
            = queued_draws (parent_instance self)) as [Hr Hd].
  { unfold disconnect_paintable. destruct (paintable self); split; reflexivity. }
  unfold bz_screenshot_set_paintable.
  destruct p as [p|]; [destruct (paintable_type_of p)|]; cbn; now rewrite Hr, Hd.
Qed.

(** X16. The request mode and [measure] agree: when the mode is
    constant-size, what [measure] gives does not depend on [for_size] in
    either direction; when it is height-for-width, the width it gives does
    not depend on [for_size]; and the mode is never width-for-height. *)
Theorem request_mode_consistent (self : BzScreenshot) :
  (bz_screenshot_get_request_mode self = GTK_SIZE_REQUEST_CONSTANT_SIZE ->
   forall orientation for_size for_size' out,
     bz_screenshot_measure self orientation for_size out
       = bz_screenshot_measure self orientation for_size' out) /\
  (bz_screenshot_get_request_mode self = GTK_SIZE_REQUEST_HEIGHT_FOR_WIDTH ->
   forall for_size for_size' out,
     bz_screenshot_measure self GTK_ORIENTATION_HORIZONTAL for_size out
       = bz_screenshot_measure self GTK_ORIENTATION_HORIZONTAL for_size' out) /\
  bz_screenshot_get_request_mode self <> GTK_SIZE_REQUEST_WIDTH_FOR_HEIGHT.
Proof.
  unfold bz_screenshot_get_request_mode, bz_screenshot_measure.
  destruct (top_half self); repeat apply conj; try discriminate.
  - intros _ orientation for_size for_size' out.
    destruct (paintable self); [destruct orientation|]; reflexivity.
  - intros _ for_size for_size' out. destruct (paintable self); reflexivity.
Qed.

Lemma request_mode_consistent_witness :
  bz_screenshot_measure sample_top_half GTK_ORIENTATION_VERTICAL 0 sample_out
    = bz_screenshot_measure sample_top_half GTK_ORIENTATION_VERTICAL 100 sample_out.
Proof.
  destruct (request_mode_consistent sample_top_half) as (H & _).
  apply H. reflexivity.
Defined.

(** X17. No size request goes stale through a setter: a setter call after
    which [measure] gives something else than before, for some direction
    and [for_size], has queued exactly one resize of the widget. The setters
    of the focus point, of the rounded corners and of the filter change
    nothing of what [measure] gives and queue no resize. *)
Theorem resize_queued_when_measure_changes
    (self : BzScreenshot) (c : call) (q : property) :
  own_property c = Some q ->
  (forall orientation for_size out,
     bz_screenshot_measure (step self c) orientation for_size out
       <> bz_screenshot_measure self orientation for_size out ->
     queued_resizes (parent_instance (step self c))
       = S (queued_resizes (parent_instance self))) /\
  (q <> PROP_PAINTABLE -> q <> PROP_TOP_HALF ->
   queued_resizes (parent_instance (step self c))
     = queued_resizes (parent_instance self) /\
   forall orientation for_size out,
     bz_screenshot_measure (step self c) orientation for_size out
       = bz_screenshot_measure self orientation for_size out).
Proof.
  intros Hq.
  destruct c as [p|v|v|v|v|v| | |]; cbn [own_property] in Hq;
    try discriminate Hq; injection Hq as <-; cbn [step].
  - split; [intros; apply set_paintable_queues | intros Hn; now elim Hn].
  - split.
    + intros orientation for_size out Hne. elim Hne. now apply measure_reads.
    + intros _ _. split; [reflexivity | now apply measure_reads].
  - split.
    + intros orientation for_size out Hne. elim Hne. now apply measure_reads.
    + intros _ _. split; [reflexivity | now apply measure_reads].
  - unfold bz_screenshot_set_rounded_corners.
    destruct (Bool.eqb (rounded_corners self) v); split.
    + intros orientation for_size out Hne. now elim Hne.
    + intros _ _. split; reflexivity.
    + intros orientation for_size out Hne. elim Hne. now apply measure_reads.
    + intros _ _. split; [reflexivity | now apply measure_reads].
  - unfold bz_screenshot_set_top_half.
    destruct (Bool.eqb (top_half self) v); split.
    + intros orientation for_size out Hne. now elim Hne.
    + intros _ Hn. now elim Hn.
    + intros orientation for_size out Hne. reflexivity.
    + intros _ Hn. now elim Hn.
  - unfold bz_screenshot_set_filter.
    destruct (GskScalingFilter_eqb (filter self) v); split.
    + intros orientation for_size out Hne. now elim Hne.
    + intros _ _. split; reflexivity.
    + intros orientation for_size out Hne. elim Hne. now apply measure_reads.
    + intros _ _. split; [reflexivity | now apply measure_reads].
Qed.

Lemma resize_queued_when_measure_changes_witness :
  queued_resizes (parent_instance (step sample_fit (call_set_top_half true)))
    = S (queued_resizes (parent_instance sample_fit)).
Proof.
  destruct (resize_queued_when_measure_changes sample_fit (call_set_top_half true)
              PROP_TOP_HALF eq_refl) as [H _].
  apply (H GTK_ORIENTATION_HORIZONTAL 0 sample_out).
  vm_compute. discriminate.
Defined.

Section Drawing.

Variable bz_async_texture_dup_texture : GdkPaintable -> option GdkTexture.

(** X18. No drawing goes stale through a setter: a setter call after which
    [snapshot] records other calls than before has queued exactly one
    redraw of the widget, and no setter call queues more than one. *)
Theorem draw_queued_when_snapshot_changes
    (self : BzScreenshot) (c : call) (q : property) :
  own_property c = Some q ->
  (bz_screenshot_snapshot_draw bz_async_texture_dup_texture (step self c)
     <> bz_screenshot_snapshot_draw bz_async_texture_dup_texture self ->
   queued_draws (parent_instance (step self c))
     = S (queued_draws (parent_instance self))) /\
  (queued_draws (parent_instance (step self c)) = queued_draws (parent_instance self) \/
   queued_draws (parent_instance (step self c))
     = S (queued_draws (parent_instance self))).
Proof.
  intros Hq.
  destruct c as [p|v|v|v|v|v| | |]; cbn [own_property] in Hq;
    try discriminate Hq; injection Hq as <-; cbn [step].
  - split; [intros _ | right]; apply set_paintable_queues.
  - split; [intros _ | right]; reflexivity.
  - split; [intros _ | right]; reflexivity.
  - unfold bz_screenshot_set_rounded_corners.
    destruct (Bool.eqb (rounded_corners self) v); split.
    + intros Hne. now elim Hne.
    + left. reflexivity.
    + intros _. reflexivity.
    + right. reflexivity.
  - unfold bz_screenshot_set_top_half.
    destruct (Bool.eqb (top_half self) v); split.
    + intros Hne. now elim Hne.
    + left. reflexivity.
    + intros _. reflexivity.
    + right. reflexivity.
  - unfold bz_screenshot_set_filter.
    destruct (GskScalingFilter_eqb (filter self) v); split.
    + intros Hne. now elim Hne.
    + left. reflexivity.
    + intros _. reflexivity.
    + right. reflexivity.
Qed.

End Drawing.

Lemma draw_queued_when_snapshot_changes_witness :
  queued_draws (parent_instance (step sample_fit (call_set_rounded_corners false)))
    = S (queued_draws (parent_instance sample_fit)).
Proof.
  destruct (draw_queued_when_snapshot_changes (fun _ => None) sample_fit
              (call_set_rounded_corners false) PROP_ROUNDED_CORNERS eq_refl) as [H _].
  apply H.
  intros E. apply (f_equal (@List.length snapshot_op)) in E.
  vm_compute in E. discriminate E.
Defined.

End ScreenshotInvalidation.

(* ================================================================= *)
(** ** bz-transaction-view.c: where the main icon comes from *)

Module TransactionViewIcon.
Import TransactionView TransactionViewSpec TransactionViewResolveSpec.

Section Icon.

Variable BZ_ENTRY_KIND_APPLICATION : Z.

(** X19. [get_main_icon] hands out the entry's own icon whenever there is
    one, without looking at the window; for an entry without an icon that
    is not a flatpak entry it gives the generic icon, again without looking
    at the window or resolving a group; and a paintable it returns is
    always the entry's icon or, for a flatpak entry without one, the icon of
    the group resolved for it. *)
Theorem get_main_icon_sources
    (list_item : GtkListItem) (tracker : option BzTransactionEntryTracker) :
  (forall p, entry_icon tracker = Some p ->
     get_main_icon BZ_ENTRY_KIND_APPLICATION list_item tracker = icon_ref p) /\
  (forall t entry,
     tracker = Some t -> tracker_entry t = Some entry ->
     entry_icon_paintable entry = None -> entry_is_flatpak entry = false ->
     get_main_icon BZ_ENTRY_KIND_APPLICATION list_item tracker
       = icon_theme_lookup "application-x-executable" 64 1) /\
  (forall p,
     get_main_icon BZ_ENTRY_KIND_APPLICATION list_item tracker = icon_ref p ->
     entry_icon tracker = Some p \/
     (entry_icon tracker = None /\
      exists group,
        resolved_group BZ_ENTRY_KIND_APPLICATION list_item tracker = Some group /\
        group_icon_paintable group = Some p)).
Proof.
  unfold get_main_icon, entry_icon, resolved_group, return_generic.
  repeat apply conj.
  - intros p Hp. destruct tracker as [t|]; [|discriminate].
    destruct (tracker_entry t) as [entry|]; [|discriminate]. now rewrite Hp.
  - intros t entry -> -> -> ->. reflexivity.
  - intros p. destruct tracker as [t|]; [|discriminate].
    destruct (tracker_entry t) as [entry|]; [|discriminate].
    destruct (entry_icon_paintable entry) as [q|].
    + intros H. left. congruence.
    + destruct (entry_is_flatpak entry); [|discriminate].
      destruct (child_ancestor_window list_item) as [window|]; [|discriminate].
      destruct (resolve_group_from_entry _ entry window) as [group|]; [|discriminate].
      destruct (group_icon_paintable group) as [q|] eqn:Hq; [|discriminate].
      intros H. right. split; [reflexivity|]. exists group. split; [reflexivity|].
      congruence.
Qed.

End Icon.

Lemma get_main_icon_sources_witness :
  get_main_icon 1 {| child_ancestor_window := Some sample_window |}
    (Some {| tracker_entry :=
               Some {| entry_id := None; entry_icon_paintable := None;
                       entry_is_of_kinds := fun _ => true; entry_is_flatpak := false;
                       addon_extension_of_ref := None |};
             tracker_type_enum := 0 |})
    = icon_theme_lookup "application-x-executable" 64 1.
Proof.
  destruct (get_main_icon_sources 1 {| child_ancestor_window := Some sample_window |}
              (Some {| tracker_entry :=
                         Some {| entry_id := None; entry_icon_paintable := None;
                                 entry_is_of_kinds := fun _ => true;
                                 entry_is_flatpak := false;
                                 addon_extension_of_ref := None |};
                       tracker_type_enum := 0 |}))
    as (_ & H & _).
  eapply H; reflexivity.
Defined.

End TransactionViewIcon.
